(** * A shallow embedding of [SimpleVectorStore]
    (src/vector_search/simple_vector_store.py) over a Redis-like backend.

    - Python/numpy floats are IEEE binary64, modelled with the Standard
      Library's [spec_float] at precision 53 and exponent bound 1024.
    - Redis holds a map from key to hash (field to string value); every
      backend call may raise (a connection error), which is modelled by a
      fault schedule consumed one entry per call.
    - A method body runs in a state and exception monad over the backend;
      the public method checks [redis_client] and wraps the body in the
      catch-all [try ... except Exception] of the source. *)

From Stdlib Require Import ZArith List Bool Ascii String Permutation Lia.
From Stdlib Require Import Floats.SpecFloat.
From Stdlib Require Import Sorted.
From stdpp Require Import base gmap strings list.

Import ListNotations.

Local Set Warnings "-register-all".

(** ** Binary64 arithmetic (numpy's float64) *)

Abbreviation float := spec_float.

Definition fadd : float -> float -> float := SFadd 53 1024.
Definition fmul : float -> float -> float := SFmul 53 1024.
Definition fdiv : float -> float -> float := SFdiv 53 1024.
Definition fsqrt : float -> float := SFsqrt 53 1024.
Definition fleb : float -> float -> bool := SFleb.
Definition fltb : float -> float -> bool := SFltb.
Definition fzero : float := S754_zero false.

(** A Python integer literal converted to float. *)
Definition float_of_Z (z : Z) : float := binary_normalize 53 1024 z 0 false.

Definition is_nan (x : float) : bool :=
  match x with S754_nan => true | _ => false end.

(** ** JSON values, as produced by [json.loads] *)

Inductive json : Type :=
  | JNull
  | JBool (b : bool)
  | JNum (f : float)
  | JStr (s : string)
  | JArr (l : list json)
  | JObj (kv : list (string * json)).

(** ** Python exceptions and results *)

Inductive py_exc : Type :=
  | RedisError        (* raised by a backend call *)
  | JSONDecodeError   (* raised by json.loads *)
  | TypeError
  | ValueError.       (* numpy shape mismatch in np.dot *)

Inductive result (A : Type) : Type :=
  | Ok (a : A)
  | Raise (e : py_exc).
Arguments Ok {A} a.
Arguments Raise {A} e.

(** ** The Redis backend *)

Record backend : Type := mkBackend {
  db : gmap string (gmap string string);
  faults : list bool  (* [true] at the head: the next call raises *)
}.

(** ** State and exception monad over the backend *)

Definition M (A : Type) : Type := backend -> result A * backend.

Definition ret {A} (a : A) : M A := fun b => (Ok a, b).

Definition bind {A B} (c : M A) (k : A -> M B) : M B :=
  fun b => match c b with
           | (Ok a, b') => k a b'
           | (Raise e, b') => (Raise e, b')
           end.

Definition raise {A} (e : py_exc) : M A := fun b => (Raise e, b).

(** [try: body except Exception: handler] *)
Definition catch {A} (c : M A) (h : py_exc -> M A) : M A :=
  fun b => match c b with
           | (Ok a, b') => (Ok a, b')
           | (Raise e, b') => h e b'
           end.

Definition lift {A} (r : result A) : M A := fun b => (r, b).

Notation "'let*' x := c 'in' k" := (bind c (fun x => k))
  (at level 200, x name, c at level 100, k at level 200).
Notation "c ;; k" := (bind c (fun _ => k)) (at level 100, right associativity).

(** ** Redis commands *)

(** Every command first consumes one entry of the fault schedule. *)
Definition call : M unit :=
  fun b => match faults b with
           | true :: fs => (Raise RedisError, mkBackend (db b) fs)
           | false :: fs => (Ok tt, mkBackend (db b) fs)
           | [] => (Ok tt, b)
           end.

Definition modify_db (f : gmap string (gmap string string) -> gmap string (gmap string string))
  : M unit := fun b => (Ok tt, mkBackend (f (db b)) (faults b)).

Definition get_db : M (gmap string (gmap string string)) := fun b => (Ok (db b), b).

(** HSET key field value *)
Definition hset (key field value : string) : M unit :=
  call ;;
  modify_db (fun d => <[key := <[field := value]> (default ∅ (d !! key))]> d).

(** HGET key field: the value or None *)
Definition hget (key field : string) : M (option string) :=
  call ;;
  let* d := get_db in
  ret (d !! key ≫= (fun h => h !! field)).

(** DEL key *)
Definition del (key : string) : M unit :=
  call ;; modify_db (delete key).

(** Redis's glob matcher [stringmatchlen] (util.c, case-sensitive), on
    byte strings.  A C [char] is signed, so ranges compare bytes as
    signed values.  Reads at the end of the pattern see the terminating
    NUL byte of the sds string, which equals none of the special
    characters. *)
Definition signed_char (c : ascii) : Z :=
  let n := Z.of_nat (nat_of_ascii c) in if (n <? 128)%Z then n else (n - 256)%Z.

(** The two loops of [stringmatchlen] that skip a run of stars: the one
    in the star case and the one once the string is consumed. *)
Fixpoint drop_stars (p : string) : string :=
  match p with
  | String c p' => if Ascii.eqb c "*" then drop_stars p' else p
  | EmptyString => EmptyString
  end.

Definition is_empty (s : string) : bool :=
  match s with EmptyString => true | _ => false end.

(** [c >= start && c <= end] after ordering [start] and [end]. *)
Definition in_range (c1 c2 x : ascii) : bool :=
  let start := signed_char c1 in
  let end_ := signed_char c2 in
  let '(start, end_) := if (start >? end_)%Z then (end_, start) else (start, end_) in
  ((start <=? signed_char x) && (signed_char x <=? end_))%Z.

(** The loop over a [[...]] class, after [[] and [^], for the string
    byte [x]: whether it matched, and the pattern left after the class
    (after the [pattern++] that follows the [switch]). *)
Fixpoint class_match (q : string) (x : ascii) (m : bool) : bool * string :=
  match q with
  | EmptyString => (m, EmptyString)
  | String c q1 =>
      match q1 with
      | String c2 q2 =>
          if Ascii.eqb c "\" then class_match q2 x (m || Ascii.eqb c2 x)
          else if Ascii.eqb c "]" then (m, q1)
          else match q2 with
               | String c3 q3 =>
                   if Ascii.eqb c2 "-" then class_match q3 x (m || in_range c c3 x)
                   else class_match q1 x (m || Ascii.eqb c x)
               | EmptyString => class_match q1 x (m || Ascii.eqb c x)
               end
      | EmptyString =>
          if Ascii.eqb c "]" then (m, q1)
          else class_match q1 x (m || Ascii.eqb c x)
      end
  end.

(** The [*] case: try the rest of the pattern on every non-empty suffix of
    the string, stopping early once [skipLongerMatches] is set. *)
Fixpoint star_loop (rec : string -> string -> bool -> bool * bool) (rest t : string)
    (skip : bool) : bool * bool :=
  match t with
  | EmptyString => (false, true)
  | String _ t' =>
      let '(r, skip') := rec rest t skip in
      if r then (true, skip')
      else if skip' then (false, skip')
      else star_loop rec rest t' skip'
  end.

(** One pattern element against the string byte [x]: the pattern left, or
    [None] for [return 0]. *)
Definition match_one (c : ascii) (p' : string) (x : ascii) : option string :=
  if Ascii.eqb c "?" then Some p'
  else if Ascii.eqb c "[" then
    let '(neg, q) := match p' with
                     | String c1 q1 => if Ascii.eqb c1 "^" then (true, q1) else (false, p')
                     | EmptyString => (false, p')
                     end in
    let '(m, q') := class_match q x false in
    if xorb neg m then Some q' else None
  else if Ascii.eqb c "\" then
    match p' with
    | String c2 p'' => if Ascii.eqb c2 x then Some p'' else None
    | EmptyString => if Ascii.eqb c x then Some EmptyString else None
    end
  else if Ascii.eqb c x then Some p' else None.

(** The [while (patternLen && stringLen)] loop of [stringmatchlen_impl];
    [rec] is the recursive call one nesting level deeper, [skip] the
    value of [*skipLongerMatches]. *)
Fixpoint match_loop (rec : string -> string -> bool -> bool * bool) (p s : string)
    (skip : bool) {struct s} : bool * bool :=
  match p, s with
  | String c p', String x s' =>
      if Ascii.eqb c "*" then
        let rest := drop_stars p' in
        if is_empty rest then (true, skip) else star_loop rec rest s skip
      else
        match match_one c p' x with
        | None => (false, skip)
        | Some p1 =>
            match s' with
            | EmptyString => (is_empty (drop_stars p1), skip)
            | String _ _ => match_loop rec p1 s' skip
            end
        end
  | _, _ => (is_empty p && is_empty s, skip)
  end.

(** [stringmatchlen_impl]: [fuel] is [1001 - nesting], for the guard
    [if (nesting > 1000) return 0]. *)
Fixpoint stringmatch_impl (fuel : nat) (p s : string) (skip : bool) : bool * bool :=
  match fuel with
  | O => (false, skip)
  | S fuel' => match_loop (stringmatch_impl fuel') p s skip
  end.

Definition stringmatchlen (p s : string) : bool := fst (stringmatch_impl 1001 p s false).
Arguments stringmatchlen : simpl never.

(** The test of [keysCommand]: the pattern ["*"] lists every key, any other
    pattern goes through [stringmatchlen]. *)
Definition keys_match (pat key : string) : bool :=
  String.eqb pat "*" || stringmatchlen pat key.

(** The keys of a database matching a pattern, in enumeration order. *)
Definition matching_keys (pat : string) (d : gmap string (gmap string string)) : list string :=
  List.filter (keys_match pat) (map fst (map_to_list d)).

(** KEYS pattern *)
Definition keys (pat : string) : M (list string) :=
  call ;;
  let* d := get_db in
  ret (matching_keys pat d).

(** ** Python helpers *)

(** [l[:k]] for a Python integer [k] (negative [k] counts from the end). *)
Definition py_slice {A} (l : list A) (k : Z) : list A :=
  if Z.leb 0 k then firstn (Z.to_nat k) l
  else firstn (length l - Z.to_nat (- k)) l.

(** [s.split(":")], with the current piece accumulated in [cur]. *)
Fixpoint split_colon_aux (s cur : string) : list string :=
  match s with
  | EmptyString => [cur]
  | String c s' =>
      if Ascii.eqb c ":" then cur :: split_colon_aux s' EmptyString
      else split_colon_aux s' (String.append cur (String c EmptyString))
  end.

Definition split_colon (s : string) : list string := split_colon_aux s EmptyString.

(** [s.split(":")[-1]] *)
Definition last_part (s : string) : string := List.last (split_colon s) EmptyString.

(** Python truthiness of the value returned by HGET. *)
Definition truthy (o : option string) : bool :=
  match o with Some (String _ _) => true | _ => false end.

(** ** numpy on 1-D float arrays *)

(** Elements that [np.array] turns into float64 entries. *)
Definition as_num (j : json) : option float :=
  match j with
  | JNum f => Some f
  | JBool true => Some (float_of_Z 1)
  | JBool false => Some fzero
  | _ => None
  end.

(** [np.array(vector)] for a parsed stored vector: a flat list of numbers. *)
Definition to_vec (j : json) : result (list float) :=
  match j with
  | JArr l =>
      match mapM as_num l with
      | Some v => Ok v
      | None => Raise TypeError
      end
  | _ => Raise TypeError
  end.

(** [np.dot] of two 1-D arrays; shapes must agree. *)
Fixpoint dot_aux (acc : float) (x y : list float) : result float :=
  match x, y with
  | [], [] => Ok acc
  | a :: x', c :: y' => dot_aux (fadd acc (fmul a c)) x' y'
  | _, _ => Raise ValueError
  end.

Definition dot (x y : list float) : result float := dot_aux fzero x y.

(** [np.linalg.norm(x)] for a 1-D array: [sqrt(x.dot(x))]. *)
Definition sumsq (x : list float) : float :=
  fold_left (fun acc a => fadd acc (fmul a a)) x fzero.

Definition norm (x : list float) : float := fsqrt (sumsq x).

(** [x / np.linalg.norm(x)]: elementwise division, no zero check. *)
Definition normalize (x : list float) : list float :=
  map (fun a => fdiv a (norm x)) x.

(** ** Records returned by the store *)

Record vrecord : Type := mkRecord {
  rec_id : string;
  rec_vector : json;
  rec_metadata : json
}.

Record hit : Type := mkHit {
  hit_id : string;
  hit_similarity : float;
  hit_metadata : json
}.

(** [results.sort(key=lambda x: x["similarity"], reverse=True)]: a stable
    sort by decreasing similarity. *)
Fixpoint insert_desc (h : hit) (l : list hit) : list hit :=
  match l with
  | [] => [h]
  | y :: l' =>
      if fltb (hit_similarity y) (hit_similarity h) then h :: l
      else y :: insert_desc h l'
  end.

Definition sort_desc (l : list hit) : list hit :=
  fold_left (fun acc h => insert_desc h acc) l [].

(** ** The store object *)

Record store : Type := mkStore {
  redis_client : option backend;
  prefix : string
}.

Definition key_of (pfx id : string) : string :=
  String.append pfx (String.append "vector:" id).

Definition key_pattern (pfx : string) : string :=
  String.append pfx "vector:*".

(** [if not self.redis_client: return sentinel]
    [try: body except Exception: return sentinel] *)
Definition method {A} (sentinel : A) (body : string -> M A) (self : store)
  : result A * store :=
  match redis_client self with
  | None => (Ok sentinel, self)
  | Some b =>
      let '(r, b') := catch (body (prefix self)) (fun _ => ret sentinel) b in
      (r, mkStore (Some b') (prefix self))
  end.

Section SimpleVectorStore.

(** [json.dumps] and [json.loads] of Python's standard library; [loads]
    returns [None] where Python raises. *)
Variable dumps : json -> string.
Variable loads : string -> option json.

Definition json_loads (o : option string) : M json :=
  match o with
  | Some s => match loads s with
              | Some j => ret j
              | None => raise JSONDecodeError
              end
  | None => raise TypeError
  end.

(** [metadata = json.loads(metadata_json) if metadata_json else {}] *)
Definition load_metadata (o : option string) : M json :=
  if truthy o then json_loads o else ret (JObj []).

(** [add_vector(id, vector, metadata=None)]; [now] is
    [datetime.now().isoformat()] at the time of the call. *)
Definition add_vector_body (now id : string) (vector : json) (metadata : option json)
    (pfx : string) : M bool :=
  let key := key_of pfx id in
  let vector_json := dumps vector in
  let metadata := match metadata with None => JObj [] | Some m => m end in
  let metadata_json := dumps metadata in
  hset key "vector" vector_json ;;
  hset key "metadata" metadata_json ;;
  hset key "created_at" now ;;
  ret true.

Definition add_vector (now id : string) (vector : json) (metadata : option json)
  : store -> result bool * store :=
  method false (add_vector_body now id vector metadata).

Definition get_vector_body (id : string) (pfx : string) : M (option vrecord) :=
  let key := key_of pfx id in
  let* vector_json := hget key "vector" in
  let* metadata_json := hget key "metadata" in
  if negb (truthy vector_json) then ret None else
  let* vector := json_loads vector_json in
  let* metadata := load_metadata metadata_json in
  ret (Some (mkRecord id vector metadata)).

Definition get_vector (id : string) : store -> result (option vrecord) * store :=
  method None (get_vector_body id).

Definition delete_vector_body (id : string) (pfx : string) : M bool :=
  del (key_of pfx id) ;; ret true.

Definition delete_vector (id : string) : store -> result bool * store :=
  method false (delete_vector_body id).

(** The loop of [search] over [all_keys]. *)
Fixpoint search_loop (query_vec : list float) (threshold : float) (ks : list string)
  : M (list hit) :=
  match ks with
  | [] => ret []
  | key :: ks' =>
      let* vector_json := hget key "vector" in
      let* metadata_json := hget key "metadata" in
      if negb (truthy vector_json) then search_loop query_vec threshold ks' else
      let* vector := json_loads vector_json in
      let* metadata := load_metadata metadata_json in
      let* vec := lift (to_vec vector) in
      let* similarity := lift (dot query_vec (normalize vec)) in
      if fleb threshold similarity then
        let* rest := search_loop query_vec threshold ks' in
        ret (mkHit (last_part key) similarity metadata :: rest)
      else search_loop query_vec threshold ks'
  end.

Definition search_body (query_vector : list float) (k : Z) (threshold : float)
    (pfx : string) : M (list hit) :=
  let* all_keys := keys (key_pattern pfx) in
  match all_keys with
  | [] => ret []
  | _ =>
      let query_vec := normalize query_vector in
      let* results := search_loop query_vec threshold all_keys in
      ret (py_slice (sort_desc results) k)
  end.

Definition search (query_vector : list float) (k : Z) (threshold : float)
  : store -> result (list hit) * store :=
  method [] (search_body query_vector k threshold).

(** The loop of [get_all_vectors]. *)
Fixpoint get_all_loop (ks : list string) : M (list vrecord) :=
  match ks with
  | [] => ret []
  | key :: ks' =>
      let* vector_json := hget key "vector" in
      let* metadata_json := hget key "metadata" in
      if negb (truthy vector_json) then get_all_loop ks' else
      let* vector := json_loads vector_json in
      let* metadata := load_metadata metadata_json in
      let* rest := get_all_loop ks' in
      ret (mkRecord (last_part key) vector metadata :: rest)
  end.

Definition get_all_vectors_body (limit : Z) (pfx : string) : M (list vrecord) :=
  let* all_keys := keys (key_pattern pfx) in
  match all_keys with
  | [] => ret []
  | _ => get_all_loop (py_slice all_keys limit)
  end.

Definition get_all_vectors (limit : Z) : store -> result (list vrecord) * store :=
  method [] (get_all_vectors_body limit).

Definition count_vectors_body (pfx : string) : M Z :=
  let* all_keys := keys (key_pattern pfx) in
  ret (Z.of_nat (length all_keys)).

Definition count_vectors : store -> result Z * store :=
  method 0%Z count_vectors_body.

Fixpoint del_all (ks : list string) : M unit :=
  match ks with
  | [] => ret tt
  | key :: ks' => del key ;; del_all ks'
  end.

Definition clear_body (pfx : string) : M bool :=
  let* all_keys := keys (key_pattern pfx) in
  match all_keys with
  | [] => ret true
  | _ => del_all all_keys ;; ret true
  end.

Definition clear : store -> result bool * store :=
  method false clear_body.

End SimpleVectorStore.

(** ** Concrete runs *)

Definition f0 : float := fzero.
Definition f1 : float := float_of_Z 1.
Definition f09 : float := fdiv (float_of_Z 9) (float_of_Z 10).
Definition f01 : float := fdiv (float_of_Z 1) (float_of_Z 10).
Definition f05 : float := fdiv (float_of_Z 1) (float_of_Z 2).

(** A stand-in for [json.loads] on the three documents of the scenario. *)
Definition scenario_loads (s : string) : option json :=
  if String.eqb s "[1,0,0,0]" then Some (JArr [JNum f1; JNum f0; JNum f0; JNum f0])
  else if String.eqb s "[0,1,0,0]" then Some (JArr [JNum f0; JNum f1; JNum f0; JNum f0])
  else if String.eqb s "[0.9,0.1,0,0]" then Some (JArr [JNum f09; JNum f01; JNum f0; JNum f0])
  else if String.eqb s "{}" then Some (JObj [])
  else None.

Definition scenario_db : gmap string (gmap string string) :=
  <["btagent:vector:a" := <["vector" := "[1,0,0,0]"]> (<["metadata" := "{}"]> ∅)]>
  (<["btagent:vector:b" := <["vector" := "[0,1,0,0]"]> (<["metadata" := "{}"]> ∅)]>
  (<["btagent:vector:c" := <["vector" := "[0.9,0.1,0,0]"]> (<["metadata" := "{}"]> ∅)]> ∅)).

Definition scenario_store : store := mkStore (Some (mkBackend scenario_db [])) "btagent:".

(** ** Helpers for the statements *)

Definition healthy (d : gmap string (gmap string string)) (pfx : string) : store :=
  mkStore (Some (mkBackend d [])) pfx.

(** The value of a field of a stored hash. *)
Definition stored_field (s : store) (key field : string) : option string :=
  match redis_client s with
  | Some b => db b !! key ≫= (fun h => h !! field)
  | None => None
  end.

(** The hash written by [add_vector]. *)
Definition added_hash (dumps : json -> string) (now : string) (v : json) (m : option json)
    (old : gmap string string) : gmap string string :=
  <["created_at" := now]>
  (<["metadata" := dumps (match m with None => JObj [] | Some m => m end)]>
  (<["vector" := dumps v]> old)).

(** What [load_metadata] yields on a healthy backend. *)
Definition parse_metadata (loads : string -> option json) (o : option string) : option json :=
  if truthy o then match o with Some s => loads s | None => None end else Some (JObj []).

Definition is_zero (x : float) : bool :=
  match x with S754_zero _ => true | _ => false end.

Definition delete_keys (ks : list string) (d : gmap string (gmap string string))
  : gmap string (gmap string string) :=
  fold_left (fun d k => delete k d) ks d.


(** A [json.dumps] that writes every vector as the same document, enough
    to observe the timestamp field. *)
Definition dumps_const (_ : json) : string := "[]".

(** A [json.dumps]/[json.loads] pair on the two documents of the witnesses. *)
Definition demo_dumps (j : json) : string :=
  match j with JArr _ => "[1.0]" | JObj _ => "{}" | _ => "null" end.

Definition demo_loads (s : string) : option json :=
  if String.eqb s "[1.0]" then Some (JArr [JNum f1])
  else if String.eqb s "{}" then Some (JObj [])
  else None.

(** Two adjacent hits of a [search] result: the first is not less similar
    than the second. *)
Definition desc_ok (a b : hit) : Prop :=
  fltb (hit_similarity a) (hit_similarity b) = false.

(** A prefix with none of the characters that Redis globbing treats
    specially outside a class: [*], [?], [[] and [\]. *)
Fixpoint no_glob_chars (s : string) : bool :=
  match s with
  | EmptyString => true
  | String c s' =>
      negb (Ascii.eqb c "*" || Ascii.eqb c "?" || Ascii.eqb c "[" || Ascii.eqb c "\")
      && no_glob_chars s'
  end.

(** The database held by a store's client, if any. *)
Definition store_db (s : store) : option (gmap string (gmap string string)) :=
  option_map db (redis_client s).

(** A computation that writes at most the keys satisfying [P]: every other
    key holds the same hash afterwards, whatever the fault schedule. *)
Definition touches_only {A} (P : string -> Prop) (c : M A) : Prop :=
  forall b r b', c b = (r, b') -> forall k, ~ P k -> db b' !! k = db b !! k.

(** ** Commands on a backend whose calls all succeed *)

Lemma hset_ok k f v d :
  hset k f v (mkBackend d []) =
  (Ok tt, mkBackend (<[k := <[f := v]> (default ∅ (d !! k))]> d) []).
Proof. reflexivity. Qed.

Lemma hget_ok k f d :
  hget k f (mkBackend d []) = (Ok (d !! k ≫= (fun h => h !! f)), mkBackend d []).
Proof. reflexivity. Qed.

Lemma del_ok k d : del k (mkBackend d []) = (Ok tt, mkBackend (delete k d) []).
Proof. reflexivity. Qed.

Lemma keys_ok pat d : keys pat (mkBackend d []) = (Ok (matching_keys pat d), mkBackend d []).
Proof. reflexivity. Qed.

Lemma add_vector_healthy dumps now id v m d pfx :
  add_vector dumps now id v m (healthy d pfx) =
  (Ok true, healthy (<[key_of pfx id := added_hash dumps now v m (default ∅ (d !! key_of pfx id))]> d) pfx).
Proof.
  unfold add_vector, method, healthy; cbn [redis_client prefix].
  unfold catch, add_vector_body, bind.
  rewrite hset_ok, hset_ok, hset_ok.
  cbn. rewrite !lookup_insert_eq, !insert_insert_eq. reflexivity.
Qed.

(** [get_vector] on a hash holding a non-empty vector document and a
    metadata field that both parse. *)
Lemma get_vector_found loads id d pfx h sv v m :
  d !! key_of pfx id = Some h ->
  h !! "vector" = Some sv -> sv <> EmptyString -> loads sv = Some v ->
  parse_metadata loads (h !! "metadata") = Some m ->
  get_vector loads id (healthy d pfx) = (Ok (Some (mkRecord id v m)), healthy d pfx).
Proof.
  intros Hk Hv Hne Hl Hm.
  unfold get_vector, method, healthy; cbn [redis_client prefix].
  unfold catch, get_vector_body, bind.
  rewrite !hget_ok, Hk. cbn [mbind option_bind]. rewrite Hv.
  destruct sv as [|c0 r0]; [congruence|]. cbn.
  rewrite Hl. unfold load_metadata, parse_metadata in *.
  destruct (h !! "metadata") as [[|c r]|]; cbn in *; try congruence.
  unfold json_loads; rewrite Hm. reflexivity.
Qed.

(** [get_vector] right after [add_vector] on a healthy backend. *)
Lemma get_after_add dumps loads now id v m d pfx :
  loads (dumps v) = Some v -> loads (dumps m) = Some m ->
  dumps v <> EmptyString -> dumps m <> EmptyString ->
  fst (get_vector loads id (snd (add_vector dumps now id v (Some m) (healthy d pfx))))
  = Ok (Some (mkRecord id v m)).
Proof.
  intros Hv Hm Hnv Hnm.
  rewrite add_vector_healthy; cbn [snd].
  erewrite get_vector_found; [reflexivity | apply lookup_insert_eq | | exact Hnv | exact Hv | ].
  - unfold added_hash. rewrite lookup_insert_ne by done.
    rewrite lookup_insert_ne by done. apply lookup_insert_eq.
  - unfold added_hash. rewrite lookup_insert_ne by done. rewrite lookup_insert_eq.
    unfold parse_metadata. destruct (dumps m) as [|c r]; [congruence|]. exact Hm.
Qed.

Lemma count_vectors_healthy d pfx :
  count_vectors (healthy d pfx) =
  (Ok (Z.of_nat (length (matching_keys (key_pattern pfx) d))), healthy d pfx).
Proof. reflexivity. Qed.

Lemma length_filter_perm {A} (f : A -> bool) (l l' : list A) :
  Permutation l l' -> length (List.filter f l) = length (List.filter f l').
Proof.
  induction 1 as [| x l l' _ IH | x y l | l l' l'' _ IH1 _ IH2]; cbn.
  - reflexivity.
  - destruct (f x); cbn; lia.
  - destruct (f x), (f y); reflexivity.
  - lia.
Qed.

(** Writing a hash at a key that is already present leaves the key list a
    permutation of the old one. *)
Lemma keys_insert_present (d : gmap string (gmap string string)) k h h' :
  d !! k = Some h' ->
  Permutation (map fst (map_to_list (<[k := h]> d))) (map fst (map_to_list d)).
Proof.
  intros Hk.
  rewrite <- (insert_delete_id d k h') at 2 by exact Hk.
  rewrite <- insert_delete_eq.
  rewrite !map_to_list_insert by apply lookup_delete_eq. reflexivity.
Qed.

Lemma matching_keys_insert_present pat (d : gmap string (gmap string string)) k h h' :
  d !! k = Some h' ->
  length (matching_keys pat (<[k := h]> d)) = length (matching_keys pat d).
Proof.
  intros Hk. unfold matching_keys. apply length_filter_perm.
  eapply keys_insert_present; eauto.
Qed.

(** Comparing the other way round gives the opposite order. *)
Lemma SFcompare_swap (x y : float) : SFcompare y x = option_map CompOpp (SFcompare x y).
Proof.
  destruct x as [sx|sx| |sx mx ex], y as [sy|sy| |sy my ey];
    try destruct sx; try destruct sy; cbn; try reflexivity;
    rewrite (Z.compare_antisym ex ey);
    destruct (Z.compare ex ey); cbn; try reflexivity;
    change (Pos.compare_cont Eq my mx) with (Pos.compare my mx);
    change (Pos.compare_cont Eq mx my) with (Pos.compare mx my);
    rewrite (Pos.compare_antisym mx my);
    destruct (Pos.compare mx my); reflexivity.
Qed.

(** [t <= s] excludes [s < t] (both are false on NaN). *)
Lemma fleb_not_fltb (t s : float) : fleb t s = true -> fltb s t = false.
Proof.
  unfold fleb, fltb, SFleb, SFltb. rewrite (SFcompare_swap t s).
  destruct (SFcompare t s) as [[]|]; cbn; congruence.
Qed.

Lemma Forall_insert_desc (P : hit -> Prop) h l :
  P h -> Forall P l -> Forall P (insert_desc h l).
Proof.
  intros Hh Hl. induction Hl as [|y l Hy Hl IH]; cbn.
  - constructor; [exact Hh | constructor].
  - destruct (fltb (hit_similarity y) (hit_similarity h)); constructor; auto.
Qed.

Lemma Forall_sort_desc (P : hit -> Prop) l : Forall P l -> Forall P (sort_desc l).
Proof.
  unfold sort_desc. assert (Hacc : Forall P []) by constructor.
  revert Hacc. generalize (@nil hit) as acc.
  induction l as [|h l IH]; intros acc Hacc Hl; cbn; [exact Hacc|].
  inversion Hl; subst. apply IH; [apply Forall_insert_desc|]; assumption.
Qed.

Lemma Forall_py_slice {A} (P : A -> Prop) l k : Forall P l -> Forall P (py_slice l k).
Proof.
  intros Hl. unfold py_slice. destruct (Z.leb 0 k);
  [rewrite <- (firstn_skipn (Z.to_nat k) l) in Hl
  |rewrite <- (firstn_skipn (length l - Z.to_nat (- k)) l) in Hl];
  apply Forall_app in Hl; apply Hl.
Qed.

(** Unfold one [bind] in a hypothesis [H : bind c k b = (r, b')]. *)
Ltac split_bind H :=
  match type of H with
  | bind ?c ?k ?b = _ =>
      unfold bind at 1 in H;
      let r := fresh "r" in let b1 := fresh "b" in let E := fresh "E" in
      destruct (c b) as [[r|r] b1] eqn:E; [|try discriminate H]
  end.

(** Every hit produced by the loop of [search] passed the threshold test. *)
Lemma search_loop_threshold loads qv t ks b l b' :
  search_loop loads qv t ks b = (Ok l, b') ->
  Forall (fun h => fleb t (hit_similarity h) = true) l.
Proof.
  revert b l b'. induction ks as [|key ks IH]; intros b l b' H; cbn in H.
  - injection H as <- _. constructor.
  - split_bind H. split_bind H.
    destruct (negb (truthy r)); [eapply IH; exact H|].
    split_bind H. split_bind H. split_bind H. split_bind H.
    destruct (fleb t r4) eqn:Ht; [|eapply IH; exact H].
    split_bind H. injection H as <- _. constructor; [exact Ht|]. eapply IH; exact E5.
Qed.

(** A method's result is the body's or the sentinel. *)
Lemma method_result {A} (sentinel : A) body self a s' :
  method sentinel body self = (Ok a, s') ->
  a = sentinel \/ exists b b', redis_client self = Some b /\ body (prefix self) b = (Ok a, b').
Proof.
  unfold method, catch, ret. destruct (redis_client self) as [b|].
  - destruct (body (prefix self) b) as [[r|e] b1] eqn:E; intros H; injection H as <- _;
      [right; eauto | left; reflexivity].
  - intros H; injection H as <- _. left; reflexivity.
Qed.

(** Without a client a method returns its sentinel and leaves the store alone. *)
Lemma method_no_client {A} (sentinel : A) body pfx :
  method sentinel body (mkStore None pfx) = (Ok sentinel, mkStore None pfx).
Proof. reflexivity. Qed.

(** The catch-all handler turns every exception of a body into the sentinel. *)
Lemma method_never_raises {A} (sentinel : A) body self :
  exists a, fst (method sentinel body self) = Ok a.
Proof.
  unfold method, catch, ret. destruct (redis_client self) as [b|]; cbn; [|eauto].
  destruct (body (prefix self) b) as [[a|e] b']; cbn; eauto.
Qed.

(** ** Zero-magnitude vectors *)

Lemma sumsq_zero_aux (v : list float) :
  forallb is_zero v = true ->
  fold_left (fun acc a => fadd acc (fmul a a)) v fzero = fzero.
Proof.
  induction v as [|x v IH]; cbn; [reflexivity|].
  intros H. apply andb_prop in H as [Hx Hv].
  destruct x as [[]|[]| |[] ? ?]; try discriminate Hx; apply IH; exact Hv.
Qed.

Lemma norm_zero (v : list float) : forallb is_zero v = true -> norm v = fzero.
Proof. intros H. unfold norm, sumsq. rewrite sumsq_zero_aux by exact H. reflexivity. Qed.

Lemma normalize_zero (v : list float) :
  forallb is_zero v = true -> normalize v = map (fun x => fdiv x fzero) v.
Proof. intros H. unfold normalize. rewrite norm_zero by exact H. reflexivity. Qed.

Lemma normalize_zero_nan (v : list float) :
  forallb is_zero v = true -> Forall (fun x => x = S754_nan) (normalize v).
Proof.
  intros H. rewrite normalize_zero by exact H.
  induction v as [|x v IH]; cbn in *; constructor.
  - apply andb_prop in H as [Hx _]. destruct x as [[]|[]| |[] ? ?]; try discriminate; reflexivity.
  - apply andb_prop in H as [_ Hv]. apply IH, Hv.
Qed.

Lemma dot_aux_nan_l acc (x y : list float) :
  Forall (fun a => a = S754_nan) x -> x <> [] -> length x = length y ->
  dot_aux acc x y = Ok S754_nan.
Proof.
  intros Hx. revert acc y. induction Hx as [|a x Ha Hx IH]; intros acc y Hne Hl; [congruence|].
  destruct y as [|c y]; [discriminate|]. cbn. subst a.
  destruct x as [|a' x'].
  - destruct y; [|discriminate]. cbn. destruct acc as [[]|[]| |[] ? ?]; reflexivity.
  - replace (fadd acc (fmul S754_nan c)) with S754_nan
      by (destruct acc as [[]|[]| |[] ? ?]; reflexivity).
    apply IH; [discriminate | cbn in *; lia].
Qed.

Lemma dot_aux_nan_r acc (x y : list float) :
  Forall (fun a => a = S754_nan) y -> y <> [] -> length x = length y ->
  dot_aux acc x y = Ok S754_nan.
Proof.
  intros Hy. revert acc x. induction Hy as [|a y Ha Hy IH]; intros acc x Hne Hl; [congruence|].
  destruct x as [|c x]; [discriminate|]. cbn. subst a.
  replace (fadd acc (fmul c S754_nan)) with S754_nan
    by (destruct c as [[]|[]| |[] ? ?]; destruct acc as [[]|[]| |[] ? ?]; reflexivity).
  destruct y as [|a' y'].
  - destruct x; [reflexivity|discriminate].
  - apply IH; [discriminate | cbn in *; lia].
Qed.


(** [np.dot] succeeds only on arrays of the same length. *)
Lemma dot_aux_length acc (x y : list float) s :
  dot_aux acc x y = Ok s -> length x = length y.
Proof.
  revert acc y. induction x as [|a x IH]; intros acc y H; destruct y as [|c y];
    cbn in *; try discriminate; [reflexivity|].
  f_equal. eapply IH; exact H.
Qed.

(** With a zero-magnitude query no stored record passes the threshold. *)
Lemma search_loop_nan loads qv t ks b l b' :
  (forall w s, dot qv w = Ok s -> s = S754_nan) ->
  search_loop loads qv t ks b = (Ok l, b') -> l = [].
Proof.
  intros Hq. revert b l b'. induction ks as [|key ks IH]; intros b l b' H; cbn in H.
  - injection H as <- _. reflexivity.
  - split_bind H. split_bind H.
    destruct (negb (truthy r)); [eapply IH; exact H|].
    split_bind H. split_bind H. split_bind H. split_bind H.
    unfold lift in E4. injection E4 as E4 _.
    rewrite (Hq _ _ E4) in H.
    replace (fleb t S754_nan) with false in H by (destruct t; reflexivity).
    eapply IH; exact H.
Qed.

Lemma delete_vector_healthy id d pfx :
  delete_vector id (healthy d pfx) = (Ok true, healthy (delete (key_of pfx id) d) pfx).
Proof. reflexivity. Qed.

Lemma get_vector_absent loads id d pfx :
  d !! key_of pfx id = None ->
  get_vector loads id (healthy d pfx) = (Ok None, healthy d pfx).
Proof.
  intros Hk. unfold get_vector, method, healthy; cbn [redis_client prefix].
  unfold catch, get_vector_body, bind. rewrite !hget_ok, Hk. reflexivity.
Qed.

Lemma del_all_ok ks d : del_all ks (mkBackend d []) = (Ok tt, mkBackend (delete_keys ks d) []).
Proof.
  revert d. induction ks as [|k ks IH]; intros d; [reflexivity|].
  cbn [del_all]. unfold bind at 1. rewrite del_ok. apply IH.
Qed.

Lemma delete_keys_lookup ks d k h :
  delete_keys ks d !! k = Some h -> d !! k = Some h /\ ~ In k ks.
Proof.
  revert d. induction ks as [|k' ks IH]; intros d H; cbn in *; [auto|].
  apply IH in H as [H Hn]. apply lookup_delete_Some in H as [Hne H].
  split; [exact H|]. intros [->|Hin]; auto.
Qed.

Lemma in_keys_lookup (d : gmap string (gmap string string)) k :
  In k (map fst (map_to_list d)) <-> exists h, d !! k = Some h.
Proof.
  rewrite in_map_iff. split.
  - intros [[k' h] [<- Hin]]. exists h. apply elem_of_map_to_list. apply list_elem_of_In, Hin.
  - intros [h Hh]. exists (k, h). split; [reflexivity|].
    apply list_elem_of_In, elem_of_map_to_list, Hh.
Qed.

(** Deleting every matching key leaves no matching key. *)
Lemma matching_keys_cleared pat d :
  matching_keys pat (delete_keys (matching_keys pat d) d) = [].
Proof.
  destruct (matching_keys pat (delete_keys (matching_keys pat d) d)) as [|x l] eqn:E;
    [reflexivity|exfalso].
  assert (Hx : In x (matching_keys pat (delete_keys (matching_keys pat d) d)))
    by (rewrite E; left; reflexivity).
  unfold matching_keys at 1 in Hx. apply filter_In in Hx as [Hin Hg].
  apply in_keys_lookup in Hin as [h Hh]. apply delete_keys_lookup in Hh as [Hd Hn].
  apply Hn. unfold matching_keys. apply filter_In. split; [|exact Hg].
  apply in_keys_lookup. eauto.
Qed.

Lemma clear_healthy d pfx :
  clear (healthy d pfx) =
  (Ok true, healthy (delete_keys (matching_keys (key_pattern pfx) d) d) pfx).
Proof.
  unfold clear, method, healthy; cbn [redis_client prefix].
  unfold catch, clear_body, bind at 1. rewrite keys_ok.
  destruct (matching_keys (key_pattern pfx) d) as [|k ks] eqn:E; [reflexivity|].
  unfold bind. rewrite del_all_ok. reflexivity.
Qed.

Lemma get_all_vectors_no_keys loads limit d pfx :
  matching_keys (key_pattern pfx) d = [] ->
  get_all_vectors loads limit (healthy d pfx) = (Ok [], healthy d pfx).
Proof.
  intros H. unfold get_all_vectors, method, healthy; cbn [redis_client prefix].
  unfold catch, get_all_vectors_body, bind at 1. rewrite keys_ok, H. reflexivity.
Qed.

(** ** Ids taken from keys *)



Lemma split_colon_aux_nonnil s cur : split_colon_aux s cur <> [].
Proof.
  revert cur. induction s as [|c s IH]; intros cur; cbn; [discriminate|].
  destruct (Ascii.eqb c ":"); [discriminate|apply IH].
Qed.



Lemma last_app_nonnil {A} (l l' : list A) (d : A) :
  l' <> [] -> List.last (l ++ l') d = List.last l' d.
Proof.
  intros H. induction l as [|a l IH]; [reflexivity|].
  cbn [app]. rewrite <- IH. destruct (l ++ l') eqn:E; [|reflexivity].
  apply app_eq_nil in E as [_ ->]. congruence.
Qed.

Lemma split_colon_aux_after a b cur :
  exists pre, split_colon_aux (String.append a (String ":" b)) cur = pre ++ split_colon_aux b EmptyString.
Proof.
  revert cur. induction a as [|c a IH]; intros cur; simpl.
  - exists [cur]. reflexivity.
  - destruct (Ascii.eqb c ":").
    + destruct (IH EmptyString) as [pre Hpre]. exists (cur :: pre). rewrite Hpre. reflexivity.
    + apply IH.
Qed.

Lemma last_part_after a b : last_part (String.append a (String ":" b)) = last_part b.
Proof.
  unfold last_part, split_colon.
  destruct (split_colon_aux_after a b EmptyString) as [pre ->].
  apply last_app_nonnil, split_colon_aux_nonnil.
Qed.

Lemma string_append_assoc a b c :
  String.append a (String.append b c) = String.append (String.append a b) c.
Proof.
  induction a as [|x a IH]; [reflexivity|].
  change (String x (String.append a (String.append b c)) =
          String x (String.append (String.append a b) c)).
  rewrite IH. reflexivity.
Qed.

Lemma last_part_key pfx id : last_part (key_of pfx id) = last_part id.
Proof.
  unfold key_of.
  replace (String.append "vector:" id) with (String.append "vector" (String ":" id)) by reflexivity.
  rewrite (string_append_assoc pfx "vector" (String ":" id)). apply last_part_after.
Qed.

Lemma get_all_loop_ids loads ks b l b' :
  get_all_loop loads ks b = (Ok l, b') ->
  Forall (fun r => exists key, In key ks /\ rec_id r = last_part key) l.
Proof.
  revert b l b'. induction ks as [|key ks IH]; intros b l b' H; cbn in H.
  - injection H as <- _. constructor.
  - split_bind H. split_bind H.
    destruct (negb (truthy r)).
    + eapply Forall_impl; [eapply IH; exact H|]. intros x (k & Hk & Hx). exists k; split; [right|]; assumption.
    + split_bind H. split_bind H. split_bind H. injection H as <- _.
      constructor; [exists key; split; [left|]; reflexivity|].
      eapply Forall_impl; [eapply IH; exact E3|]. intros x (k & Hk & Hx). exists k; split; [right|]; assumption.
Qed.

Lemma search_loop_ids loads qv t ks b l b' :
  search_loop loads qv t ks b = (Ok l, b') ->
  Forall (fun h => exists key, In key ks /\ hit_id h = last_part key) l.
Proof.
  revert b l b'. induction ks as [|key ks IH]; intros b l b' H; cbn in H.
  - injection H as <- _. constructor.
  - assert (Hweak : forall l0, Forall (fun h => exists k, In k ks /\ hit_id h = last_part k) l0 ->
                  Forall (fun h => exists k, In k (key :: ks) /\ hit_id h = last_part k) l0)
      by (intros l0 Hl0; eapply Forall_impl; [exact Hl0|]; intros x (k & Hk & Hx); exists k; split; [right|]; assumption).
    split_bind H. split_bind H.
    destruct (negb (truthy r)); [eapply Hweak, IH; exact H|].
    split_bind H. split_bind H. split_bind H. split_bind H.
    destruct (fleb t r4); [|eapply Hweak, IH; exact H].
    split_bind H. injection H as <- _.
    constructor; [exists key; split; [left|]; reflexivity|]. eapply Hweak, IH; exact E5.
Qed.

Lemma get_all_loop_length loads ks b l b' :
  get_all_loop loads ks b = (Ok l, b') -> length l <= length ks.
Proof.
  revert b l b'. induction ks as [|key ks IH]; intros b l b' H; cbn in H.
  - injection H as <- _. reflexivity.
  - split_bind H. split_bind H.
    destruct (negb (truthy r)); [apply IH in H; cbn; lia|].
    split_bind H. split_bind H. split_bind H. injection H as <- _.
    apply IH in E3. cbn. lia.
Qed.

Lemma length_py_slice {A} (l : list A) k : length (py_slice l k) <= length l.
Proof. unfold py_slice. destruct (Z.leb 0 k); rewrite length_firstn; lia. Qed.

(** Every id reported by [get_all_vectors] is the last colon-separated part
    of some key. *)
Lemma get_all_vectors_ids loads limit (self : store) :
  match fst (get_all_vectors loads limit self) with
  | Ok l => Forall (fun r => exists key, rec_id r = last_part key) l
  | Raise _ => True
  end.
Proof.
  destruct (get_all_vectors loads limit self) as [[l|e] s'] eqn:E; cbn; [|exact I].
  apply method_result in E as [-> | (b & b' & _ & Hb)]; [constructor|].
  unfold get_all_vectors_body in Hb. split_bind Hb.
  destruct r as [|k0 ks]; [injection Hb as <- _; constructor|].
  eapply Forall_impl; [eapply get_all_loop_ids; exact Hb|].
  intros x (k & _ & Hx). eauto.
Qed.

(** Every id reported by [search] is the last colon-separated part of some key. *)
Lemma search_ids loads q k t (self : store) :
  match fst (search loads q k t self) with
  | Ok l => Forall (fun h => exists key, hit_id h = last_part key) l
  | Raise _ => True
  end.
Proof.
  destruct (search loads q k t self) as [[l|e] s'] eqn:E; cbn; [|exact I].
  apply method_result in E as [-> | (b & b' & _ & Hb)]; [constructor|].
  unfold search_body in Hb. split_bind Hb.
  destruct r as [|k0 ks]; [injection Hb as <- _; constructor|].
  split_bind Hb. injection Hb as <- _.
  apply Forall_py_slice, Forall_sort_desc.
  eapply Forall_impl; [eapply search_loop_ids; exact E0|].
  intros x (key & _ & Hx). eauto.
Qed.


Lemma get_all_vectors_healthy_length loads limit d pfx :
  match fst (get_all_vectors loads limit (healthy d pfx)) with
  | Ok l => length l <= length (matching_keys (key_pattern pfx) d)
  | Raise _ => True
  end.
Proof.
  destruct (get_all_vectors loads limit (healthy d pfx)) as [[l|e] s'] eqn:E; cbn; [|exact I].
  apply method_result in E as [-> | (b & b' & Hc & Hb)]; [cbn; lia|].
  cbn in Hc. injection Hc as <-. cbn [prefix healthy] in Hb.
  unfold get_all_vectors_body in Hb. unfold bind at 1 in Hb. rewrite keys_ok in Hb.
  destruct (matching_keys (key_pattern pfx) d) as [|k0 ks] eqn:Ek;
    [injection Hb as <- _; reflexivity|].
  apply get_all_loop_length in Hb. pose proof (length_py_slice (k0 :: ks) limit). lia.
Qed.

(** ** Claims *)

(** C1 (counterexample): id "x" is added at time "t1", then added again
    at time "t2"; after the second call its [created_at] field holds "t2",
    not the time of the first insertion. *)
Lemma C1_created_at_overwritten :
  let k := key_of "btagent:" "x" in
  let s1 := snd (add_vector dumps_const "t1" "x" (JArr []) None (healthy ∅ "btagent:")) in
  let s2 := snd (add_vector dumps_const "t2" "x" (JArr []) None s1) in
  stored_field s1 k "created_at" = Some "t1" /\
  stored_field s2 k "created_at" = Some "t2" /\
  stored_field s2 k "created_at" <> stored_field s1 k "created_at".
Proof. vm_compute. split; [reflexivity | split; [reflexivity | discriminate]]. Qed.

(** C1 (amended): on an available backend every [add_vector] call succeeds
    and writes the call's own timestamp to [created_at], whether or not the
    id was already stored. *)
Theorem C1_created_at_is_last_write dumps now id v m d pfx :
  fst (add_vector dumps now id v m (healthy d pfx)) = Ok true /\
  stored_field (snd (add_vector dumps now id v m (healthy d pfx))) (key_of pfx id) "created_at"
  = Some now.
Proof.
  rewrite add_vector_healthy; cbn [fst snd]. split; [reflexivity|].
  unfold stored_field, healthy, added_hash; cbn [redis_client db].
  rewrite lookup_insert_eq. cbn. rewrite lookup_insert_eq. reflexivity.
Qed.

(** C2: on an available backend, [add_vector(id, v, m)] followed by
    [get_vector(id)] returns the record with vector [v] and metadata [m],
    given that [json.loads] inverts [json.dumps] on [v] and [m] (JSON text
    is never empty). *)
Theorem C2_add_get_roundtrip dumps loads now id v m d pfx :
  loads (dumps v) = Some v -> loads (dumps m) = Some m ->
  dumps v <> EmptyString -> dumps m <> EmptyString ->
  fst (get_vector loads id (snd (add_vector dumps now id v (Some m) (healthy d pfx))))
  = Ok (Some (mkRecord id v m)).
Proof. apply get_after_add. Qed.

(** C3: two successive [add_vector] calls with the same id leave the
    second vector and metadata retrievable, and [count_vectors] gives the
    same count after the second call as after the first. *)
Theorem C3_upsert dumps loads now1 now2 id v1 m1 v2 m2 d pfx :
  loads (dumps v2) = Some v2 -> loads (dumps m2) = Some m2 ->
  dumps v2 <> EmptyString -> dumps m2 <> EmptyString ->
  let s1 := snd (add_vector dumps now1 id v1 m1 (healthy d pfx)) in
  let s2 := snd (add_vector dumps now2 id v2 (Some m2) s1) in
  fst (get_vector loads id s2) = Ok (Some (mkRecord id v2 m2)) /\
  fst (count_vectors s2) = fst (count_vectors s1).
Proof.
  intros Hv Hm Hnv Hnm s1 s2. subst s1 s2.
  rewrite add_vector_healthy; cbn [snd]. split.
  - apply get_after_add; assumption.
  - rewrite add_vector_healthy; cbn [snd].
    rewrite !count_vectors_healthy; cbn [fst]. f_equal. f_equal.
    eapply matching_keys_insert_present. apply lookup_insert_eq.
Qed.

Lemma C2_add_get_roundtrip_witness :
  demo_loads (demo_dumps (JArr [JNum f1])) = Some (JArr [JNum f1]) /\
  fst (get_vector demo_loads "a:b"
         (snd (add_vector demo_dumps "2024-01-01T00:00:00" "a:b" (JArr [JNum f1]) (Some (JObj []))
                 (healthy ∅ "btagent:"))))
  = Ok (Some (mkRecord "a:b" (JArr [JNum f1]) (JObj []))).
Proof.
  split; [vm_compute; reflexivity|].
  apply C2_add_get_roundtrip; vm_compute; first [reflexivity | discriminate].
Defined.

Lemma C3_upsert_witness :
  let s1 := snd (add_vector demo_dumps "t1" "x" (JArr []) (Some (JObj [])) (healthy ∅ "btagent:")) in
  let s2 := snd (add_vector demo_dumps "t2" "x" (JArr [JNum f1]) (Some (JObj [])) s1) in
  fst (get_vector demo_loads "x" s2) = Ok (Some (mkRecord "x" (JArr [JNum f1]) (JObj []))) /\
  fst (count_vectors s2) = fst (count_vectors s1).
Proof.
  apply C3_upsert; vm_compute; first [reflexivity | discriminate].
Defined.

(** C4: no element of the list returned by [search(q, k, t)] has a
    similarity strictly below [t]. *)
Theorem C4_threshold_filter loads q k t (self : store) :
  match fst (search loads q k t self) with
  | Ok l => Forall (fun h => fltb (hit_similarity h) t = false) l
  | Raise _ => True
  end.
Proof.
  destruct (search loads q k t self) as [[l|e] s'] eqn:E; cbn; [|exact I].
  apply method_result in E as [-> | (b & b' & _ & Hb)]; [constructor|].
  unfold search_body in Hb. split_bind Hb.
  destruct r as [|k0 ks].
  - injection Hb as <- _. constructor.
  - split_bind Hb. injection Hb as <- _.
    apply Forall_py_slice, Forall_sort_desc.
    eapply Forall_impl; [eapply search_loop_threshold; exact E0|].
    intros h Hh. apply fleb_not_fltb. exact Hh.
Qed.

(** C5: without a configured client every public method returns its
    failure sentinel and the store is left as it was (no backend exists to
    be called); and with any client and any backend behaviour, no public
    method raises. *)
Theorem C5_fail_soft dumps loads pfx now id v m q k t limit :
  let s0 := mkStore None pfx in
  (add_vector dumps now id v m s0 = (Ok false, s0) /\
   get_vector loads id s0 = (Ok None, s0) /\
   delete_vector id s0 = (Ok false, s0) /\
   search loads q k t s0 = (Ok [], s0) /\
   get_all_vectors loads limit s0 = (Ok [], s0) /\
   count_vectors s0 = (Ok 0%Z, s0) /\
   clear s0 = (Ok false, s0)) /\
  (forall self : store,
   (exists a, fst (add_vector dumps now id v m self) = Ok a) /\
   (exists a, fst (get_vector loads id self) = Ok a) /\
   (exists a, fst (delete_vector id self) = Ok a) /\
   (exists a, fst (search loads q k t self) = Ok a) /\
   (exists a, fst (get_all_vectors loads limit self) = Ok a) /\
   (exists a, fst (count_vectors self) = Ok a) /\
   (exists a, fst (clear self) = Ok a)).
Proof.
  split.
  - repeat split.
  - intros self. repeat split; apply method_never_raises.
Qed.

(** C6: normalisation divides by the Euclidean norm with no zero check.
    A vector whose entries are all zero has norm [0], each entry is
    divided by [0] and becomes NaN; the similarity of a zero query or a
    zero stored vector is NaN; and [search] with a non-empty zero query
    returns no hits at all. *)
Theorem C6_zero_norm_division (q w : list float) :
  forallb is_zero q = true -> q <> [] ->
  (forall v : list float, forallb is_zero v = true ->
     norm v = fzero /\ normalize v = map (fun x => fdiv x fzero) v /\
     Forall (fun x => x = S754_nan) (normalize v)) /\
  (length q = length w -> dot (normalize q) (normalize w) = Ok S754_nan /\
                         dot (normalize w) (normalize q) = Ok S754_nan) /\
  (forall loads k t self, fst (search loads q k t self) = Ok [] ).
Proof.
  intros Hq Hne. split; [|split].
  - intros v Hv. split; [apply norm_zero, Hv|split; [apply normalize_zero, Hv|apply normalize_zero_nan, Hv]].
  - intros Hl. assert (normalize q <> []) by (destruct q; [congruence|discriminate]).
    assert (Hlen : length (normalize q) = length (normalize w))
      by (unfold normalize; rewrite !length_map; exact Hl).
    unfold dot. split.
    + apply dot_aux_nan_l; [apply normalize_zero_nan, Hq|assumption|exact Hlen].
    + apply dot_aux_nan_r; [apply normalize_zero_nan, Hq|assumption|symmetry; exact Hlen].
  - intros loads k t self.
    destruct (search loads q k t self) as [[l|e] s'] eqn:E; cbn.
    + apply method_result in E as [-> | (b & b' & _ & Hb)]; [reflexivity|].
      unfold search_body in Hb. split_bind Hb. destruct r as [|k0 ks].
      * injection Hb as <- _. reflexivity.
      * split_bind Hb. injection Hb as <- _.
        apply search_loop_nan in E0; [subst; cbn; unfold py_slice; destruct (Z.leb 0 k); rewrite firstn_nil; reflexivity|].
        intros w' s1 Hd. unfold dot in Hd.
        destruct (Nat.eq_dec (length q) (length w')) as [Heq|Hneq].
        -- assert (normalize q <> []) by (destruct q; [congruence|discriminate]).
           rewrite dot_aux_nan_l in Hd; [congruence|apply normalize_zero_nan, Hq|assumption|].
           unfold normalize; rewrite length_map; exact Heq.
        -- exfalso. apply dot_aux_length in Hd. unfold normalize in Hd.
           rewrite !length_map in Hd. exact (Hneq Hd).
    + pose proof (method_never_raises [] (search_body loads q k t) self) as [a Ha].
      unfold search in E. rewrite E in Ha. discriminate.
Qed.

Lemma C6_zero_norm_division_witness :
  forallb is_zero [fzero] = true /\ [fzero] <> [] /\
  (forall loads k t self, fst (search loads [fzero] k t self) = Ok []).
Proof.
  split; [reflexivity|split; [discriminate|]].
  exact (proj2 (proj2 (C6_zero_norm_division [fzero] [f1] eq_refl ltac:(discriminate)))).
Defined.

(** C7: on an available backend [delete_vector(id)] returns true whether or
    not the id is stored, and a following [get_vector(id)] returns None. *)
Theorem C7_delete_idempotent loads id d pfx :
  fst (delete_vector id (healthy d pfx)) = Ok true /\
  fst (get_vector loads id (snd (delete_vector id (healthy d pfx)))) = Ok None.
Proof.
  rewrite delete_vector_healthy; cbn [fst snd]. split; [reflexivity|].
  rewrite get_vector_absent by apply lookup_delete_eq. reflexivity.
Qed.

(** C8: on an available backend [clear()] returns true (also when there is
    no key to delete), and afterwards [count_vectors()] is 0 and
    [get_all_vectors(limit)] is empty for every limit. *)
Theorem C8_clear_empties loads d pfx :
  fst (clear (healthy d pfx)) = Ok true /\
  fst (count_vectors (snd (clear (healthy d pfx)))) = Ok 0%Z /\
  (forall limit, fst (get_all_vectors loads limit (snd (clear (healthy d pfx)))) = Ok []).
Proof.
  rewrite clear_healthy; cbn [fst snd]. split; [reflexivity|split].
  - rewrite count_vectors_healthy, matching_keys_cleared. reflexivity.
  - intros limit. rewrite get_all_vectors_no_keys by apply matching_keys_cleared. reflexivity.
Qed.

(** C10: [count_vectors] is the number of keys under the namespace,
    whether or not they hold a vector field, and it bounds the number of
    records [get_all_vectors] returns, for every limit. *)
Theorem C10_count_bounds_get_all loads d pfx limit :
  fst (count_vectors (healthy d pfx)) = Ok (Z.of_nat (length (matching_keys (key_pattern pfx) d))) /\
  match fst (count_vectors (healthy d pfx)), fst (get_all_vectors loads limit (healthy d pfx)) with
  | Ok n, Ok l => (Z.of_nat (length l) <= n)%Z
  | _, _ => True
  end.
Proof.
  rewrite count_vectors_healthy; cbn [fst]. split; [reflexivity|].
  pose proof (get_all_vectors_healthy_length loads limit d pfx) as H.
  destruct (fst (get_all_vectors loads limit (healthy d pfx))); [lia|exact I].
Qed.

Example scenario_search :
  option_map (map hit_id)
    (match fst (search scenario_loads [f1; f0; f0; f0] 2 f05 scenario_store) with
     | Ok l => Some l | Raise _ => None end) = Some ["a"; "c"].
Proof. vm_compute. reflexivity. Qed.

(** The record added under id "trucks:42" is reported by [get_all_vectors]
    with id "42". *)
Example get_all_reports_suffix :
  fst (get_all_vectors demo_loads 1000
         (snd (add_vector demo_dumps "t" "trucks:42" (JArr [JNum f1]) None (healthy ∅ "btagent:"))))
  = Ok [mkRecord "42" (JArr [JNum f1]) (JObj [])].
Proof. vm_compute. reflexivity. Qed.

(** A key holding only metadata is counted but not returned. *)
Example count_includes_vectorless_key :
  let s := healthy (<["btagent:vector:x" := <["metadata" := "{}"]> ∅]> ∅) "btagent:" in
  fst (count_vectors s) = Ok 1%Z /\ fst (get_all_vectors demo_loads 1000 s) = Ok [].
Proof. vm_compute. split; reflexivity. Qed.

(** ** Further properties: which keys each method writes *)

Lemma touches_ret {A} P (a : A) : touches_only P (ret a).
Proof. intros b r b' H k _. injection H as _ <-. reflexivity. Qed.

Lemma touches_raise {A} P e : touches_only P (@raise A e).
Proof. intros b r b' H k _. injection H as _ <-. reflexivity. Qed.

Lemma touches_lift {A} P (x : result A) : touches_only P (lift x).
Proof. intros b r b' H k _. injection H as _ <-. reflexivity. Qed.

Lemma touches_bind {A B} P (c : M A) (f : A -> M B) :
  touches_only P c -> (forall a, touches_only P (f a)) -> touches_only P (bind c f).
Proof.
  intros Hc Hf b r b' H k Hk. unfold bind in H.
  destruct (c b) as [[a|e] b1] eqn:E.
  - rewrite (Hf a _ _ _ H k Hk). exact (Hc _ _ _ E k Hk).
  - injection H as _ <-. exact (Hc _ _ _ E k Hk).
Qed.

Lemma touches_catch {A} P (c : M A) h :
  touches_only P c -> (forall e, touches_only P (h e)) -> touches_only P (catch c h).
Proof.
  intros Hc Hh b r b' H k Hk. unfold catch in H.
  destruct (c b) as [[a|e] b1] eqn:E.
  - injection H as _ <-. exact (Hc _ _ _ E k Hk).
  - rewrite (Hh e _ _ _ H k Hk). exact (Hc _ _ _ E k Hk).
Qed.

Lemma touches_call P : touches_only P call.
Proof.
  intros b r b' H k _. unfold call in H.
  destruct (faults b) as [|[] fs]; injection H as _ <-; reflexivity.
Qed.

Lemma touches_get_db P : touches_only P get_db.
Proof. intros b r b' H k _. injection H as _ <-. reflexivity. Qed.

Lemma touches_hset key f v : touches_only (fun k => k = key) (hset key f v).
Proof.
  unfold hset. apply touches_bind; [apply touches_call|]. intros _.
  intros b r b' H k Hk. injection H as _ <-. cbn. apply lookup_insert_ne. congruence.
Qed.

Lemma touches_del key : touches_only (fun k => k = key) (del key).
Proof.
  unfold del. apply touches_bind; [apply touches_call|]. intros _.
  intros b r b' H k Hk. injection H as _ <-. cbn. apply lookup_delete_ne. congruence.
Qed.

Lemma touches_hget P key f : touches_only P (hget key f).
Proof.
  unfold hget. apply touches_bind; [apply touches_call|]. intros _.
  apply touches_bind; [apply touches_get_db|]. intros d. apply touches_ret.
Qed.

Lemma touches_keys P pat : touches_only P (keys pat).
Proof.
  unfold keys. apply touches_bind; [apply touches_call|]. intros _.
  apply touches_bind; [apply touches_get_db|]. intros d. apply touches_ret.
Qed.

Lemma touches_json_loads P loads o : touches_only P (json_loads loads o).
Proof.
  unfold json_loads. destruct o as [s|]; [destruct (loads s)|];
    first [apply touches_ret | apply touches_raise].
Qed.

Lemma touches_load_metadata P loads o : touches_only P (load_metadata loads o).
Proof. unfold load_metadata. destruct (truthy o); [apply touches_json_loads|apply touches_ret]. Qed.

Ltac touches_step :=
  first
  [ apply touches_bind; [|intros ?]
  | apply touches_ret | apply touches_raise | apply touches_lift
  | apply touches_call | apply touches_get_db
  | apply touches_hget | apply touches_keys
  | apply touches_json_loads | apply touches_load_metadata
  | match goal with |- touches_only _ (if ?c then _ else _) => destruct c end ].

Lemma touches_search_loop P loads qv t ks : touches_only P (search_loop loads qv t ks).
Proof.
  induction ks as [|key ks IH]; cbn [search_loop]; [apply touches_ret|].
  repeat (first [exact IH | touches_step]).
Qed.

Lemma touches_get_all_loop P loads ks : touches_only P (get_all_loop loads ks).
Proof.
  induction ks as [|key ks IH]; cbn [get_all_loop]; [apply touches_ret|].
  repeat (first [exact IH | touches_step]).
Qed.

Lemma touches_del_all ks : touches_only (fun k => In k ks) (del_all ks).
Proof.
  induction ks as [|key ks IH]; cbn [del_all]; [apply touches_ret|].
  apply touches_bind.
  - intros b r b' H k Hk. apply (touches_del key b r b' H). intros ->. apply Hk. left; reflexivity.
  - intros _ b r b' H k Hk. apply (IH b r b' H). intros Hin. apply Hk. right; exact Hin.
Qed.

(** What a method does to the database of its store. *)
Lemma method_touches {A} P (sentinel : A) body (self : store) :
  touches_only P (body (prefix self)) ->
  (redis_client self = None /\ snd (method sentinel body self) = self) \/
  exists b b', redis_client self = Some b /\
               store_db (snd (method sentinel body self)) = Some (db b') /\
               forall k, ~ P k -> db b' !! k = db b !! k.
Proof.
  intros Hb. unfold method. destruct (redis_client self) as [b|] eqn:Ec; [|left; auto].
  right. destruct (catch (body (prefix self)) (fun _ => ret sentinel) b) as [r b'] eqn:E.
  exists b, b'. split; [reflexivity|split; [reflexivity|]].
  eapply touches_catch; [exact Hb| intros; apply touches_ret | exact E].
Qed.

(** From per-key sameness on every key to sameness of the database. *)
Lemma method_read_only {A} (sentinel : A) body (self : store) :
  touches_only (fun _ => False) (body (prefix self)) ->
  store_db (snd (method sentinel body self)) = store_db self.
Proof.
  intros Hb. destruct (method_touches _ sentinel body self Hb) as [[_ ->] | (b & b' & Hc & Hd & Hk)];
    [reflexivity|].
  rewrite Hd. unfold store_db. rewrite Hc. cbn. f_equal. apply map_eq. intros k. apply Hk. auto.
Qed.

(** A method whose body writes only keys satisfying [P] leaves every other
    key of its store as it was. *)
Lemma method_frame {A} P (sentinel : A) body (self : store) k :
  touches_only P (body (prefix self)) -> ~ P k ->
  (store_db (snd (method sentinel body self)) ≫= (fun d => d !! k)) =
  (store_db self ≫= (fun d => d !! k)).
Proof.
  intros Hb Hk. destruct (method_touches P sentinel body self Hb) as [[_ ->] | (b & b' & Hc & Hd & Hf)];
    [reflexivity|].
  rewrite Hd. unfold store_db. rewrite Hc. cbn. apply Hf, Hk.
Qed.

Lemma touches_add_vector_body dumps now id v m pfx :
  touches_only (fun k => k = key_of pfx id) (add_vector_body dumps now id v m pfx).
Proof.
  unfold add_vector_body.
  repeat (apply touches_bind; [apply touches_hset|intros _]). apply touches_ret.
Qed.

Lemma keys_state pat b r b' :
  keys pat b = (r, b') -> db b' = db b /\ forall l, r = Ok l -> l = matching_keys pat (db b).
Proof.
  unfold keys, bind, call, get_db, ret.
  destruct (faults b) as [|[] fs]; intros H; injection H as <- <-; cbn;
    split; try reflexivity; intros l Hl; congruence.
Qed.

Lemma touches_clear_body pfx :
  touches_only (fun k => keys_match (key_pattern pfx) k = true) (clear_body pfx).
Proof.
  intros b r b' H k Hk. unfold clear_body, bind at 1 in H.
  destruct (keys (key_pattern pfx) b) as [[l|e] b1] eqn:E;
    apply keys_state in E as [Hdb Hl]; [|injection H as _ <-; rewrite Hdb; reflexivity].
  rewrite <- Hdb. specialize (Hl l eq_refl).
  destruct l as [|k0 ks]; [injection H as _ <-; reflexivity|].
  eapply touches_bind; [apply touches_del_all | intros; apply touches_ret | exact H |].
  intros Hin. apply Hk. rewrite Hl in Hin. unfold matching_keys in Hin.
  apply filter_In in Hin as [_ Hg]. exact Hg.
Qed.

Lemma string_app_cons c a b : String.append (String c a) b = String c (String.append a b).
Proof. reflexivity. Qed.

Lemma stringmatch_impl_S f p s sk :
  stringmatch_impl (S f) p s sk = match_loop (stringmatch_impl f) p s sk.
Proof. reflexivity. Qed.

Lemma no_glob_chars_app a b :
  no_glob_chars a = true -> no_glob_chars b = true -> no_glob_chars (String.append a b) = true.
Proof.
  intros Ha Hb. induction a as [|c a IH]; [exact Hb|].
  rewrite string_app_cons. cbn [no_glob_chars] in *.
  apply andb_true_iff in Ha as [Hc Ha]. rewrite Hc, (IH Ha). reflexivity.
Qed.

Lemma no_glob_chars_cons c p :
  no_glob_chars (String c p) = true ->
  Ascii.eqb c "*" = false /\ Ascii.eqb c "?" = false /\ Ascii.eqb c "[" = false /\
  Ascii.eqb c "\" = false /\ no_glob_chars p = true.
Proof.
  cbn [no_glob_chars]. intros H. apply andb_true_iff in H as [Hc Hp].
  apply negb_true_iff in Hc. repeat rewrite orb_false_iff in Hc.
  destruct Hc as [[[H1 H2] H3] H4]. auto.
Qed.

Lemma append_empty_r a b : String.append a b = EmptyString -> b = EmptyString.
Proof. destruct a; [auto | discriminate]. Qed.

(** A pattern that starts with plain text consumes the same text at the
    start of the string, one byte per iteration. *)
Lemma match_loop_literal rec p q r sk :
  no_glob_chars p = true -> r <> EmptyString ->
  match_loop rec (String.append p q) (String.append p r) sk = match_loop rec q r sk.
Proof.
  intros Hp Hr. induction p as [|c p IH]; [reflexivity|].
  apply no_glob_chars_cons in Hp as (H1 & H2 & H3 & H4 & Hp).
  rewrite !string_app_cons. cbn [match_loop]. rewrite H1.
  unfold match_one. rewrite H2, H3, H4, Ascii.eqb_refl. cbv beta iota.
  destruct (String.append p r) as [|x r'] eqn:Epr.
  - apply append_empty_r in Epr. congruence.
  - apply IH, Hp.
Qed.

Lemma match_loop_literal_end rec p q sk :
  no_glob_chars p = true -> p <> EmptyString ->
  match_loop rec (String.append p q) p sk = (is_empty (drop_stars q), sk).
Proof.
  intros Hp Hne. induction p as [|c p IH]; [congruence|].
  apply no_glob_chars_cons in Hp as (H1 & H2 & H3 & H4 & Hp).
  rewrite !string_app_cons. cbn [match_loop]. rewrite H1.
  unfold match_one. rewrite H2, H3, H4, Ascii.eqb_refl. cbv beta iota.
  destruct p as [|c' p'].
  - reflexivity.
  - apply IH; [exact Hp | discriminate].
Qed.

(** Under a prefix free of the glob characters [*], [?], [[] and [\], the
    key of every id matches the pattern of the prefix. *)
Lemma key_matches_pattern pfx id :
  no_glob_chars pfx = true -> keys_match (key_pattern pfx) (key_of pfx id) = true.
Proof.
  intros Hp. unfold keys_match. apply orb_true_iff. right.
  unfold stringmatchlen. rewrite stringmatch_impl_S.
  unfold key_pattern, key_of.
  replace "vector:*" with (String.append "vector:" "*") by reflexivity.
  rewrite !string_append_assoc.
  assert (Hp' : no_glob_chars (String.append pfx "vector:") = true)
    by (apply no_glob_chars_app; [exact Hp | reflexivity]).
  destruct id as [|x id'].
  - assert (Hne : String.append pfx "vector:" <> EmptyString)
      by (intros E; apply append_empty_r in E; discriminate).
    replace (String.append (String.append pfx "vector:") "") with (String.append pfx "vector:")
      by (rewrite <- string_append_assoc; reflexivity).
    rewrite match_loop_literal_end by assumption. reflexivity.
  - rewrite match_loop_literal by (assumption || discriminate). reflexivity.
Qed.

Lemma matching_keys_insert_new pat (d : gmap string (gmap string string)) k h :
  d !! k = None -> keys_match pat k = true ->
  length (matching_keys pat (<[k := h]> d)) = S (length (matching_keys pat d)).
Proof.
  intros Hk Hg. unfold matching_keys.
  rewrite (length_filter_perm _ _ (k :: map fst (map_to_list d))).
  - cbn. rewrite Hg. reflexivity.
  - rewrite map_to_list_insert by exact Hk. reflexivity.
Qed.

Lemma matching_keys_delete_present pat (d : gmap string (gmap string string)) k h :
  d !! k = Some h -> keys_match pat k = true ->
  length (matching_keys pat d) = S (length (matching_keys pat (delete k d))).
Proof.
  intros Hk Hg. unfold matching_keys.
  rewrite (length_filter_perm _ (map fst (map_to_list d)) (k :: map fst (map_to_list (delete k d)))).
  - cbn. rewrite Hg. reflexivity.
  - rewrite <- (map_to_list_delete d k h) by exact Hk. reflexivity.
Qed.

(** X1: [add_vector(id, ...)] writes no key other than [prefix + "vector:" + id],
    whatever the backend does, including when a call fails. *)
Theorem add_vector_frame dumps now id v m (self : store) k :
  k <> key_of (prefix self) id ->
  (store_db (snd (add_vector dumps now id v m self)) ≫= (fun d => d !! k)) =
  (store_db self ≫= (fun d => d !! k)).
Proof. intros Hk. eapply method_frame; [apply touches_add_vector_body | exact Hk]. Qed.

Lemma add_vector_frame_witness :
  "btagent:vector:b" <> key_of "btagent:" "a" /\
  (store_db (snd (add_vector demo_dumps "t" "a" (JArr []) None (healthy scenario_db "btagent:")))
     ≫= (fun d => d !! "btagent:vector:b")) =
  (store_db (healthy scenario_db "btagent:") ≫= (fun d => d !! "btagent:vector:b")).
Proof. split; [discriminate|]. apply add_vector_frame. discriminate. Defined.

(** X2: [delete_vector(id)] removes no key other than [prefix + "vector:" + id]. *)
Theorem delete_vector_frame id (self : store) k :
  k <> key_of (prefix self) id ->
  (store_db (snd (delete_vector id self)) ≫= (fun d => d !! k)) =
  (store_db self ≫= (fun d => d !! k)).
Proof.
  intros Hk. apply (method_frame (fun k' => k' = key_of (prefix self) id)); [|exact Hk].
  unfold delete_vector_body. apply touches_bind; [apply touches_del|intros; apply touches_ret].
Qed.

Lemma delete_vector_frame_witness :
  "btagent:vector:b" <> key_of "btagent:" "a" /\
  (store_db (snd (delete_vector "a" (healthy scenario_db "btagent:")))
     ≫= (fun d => d !! "btagent:vector:b")) =
  (store_db (healthy scenario_db "btagent:") ≫= (fun d => d !! "btagent:vector:b")).
Proof. split; [discriminate|]. apply delete_vector_frame. discriminate. Defined.

(** X3: [clear()] never deletes a key that KEYS does not match against
    the pattern [prefix + "vector:*"], whatever the backend does. *)
Theorem clear_frame (self : store) k :
  keys_match (key_pattern (prefix self)) k = false ->
  (store_db (snd (clear self)) ≫= (fun d => d !! k)) = (store_db self ≫= (fun d => d !! k)).
Proof.
  intros Hk. eapply method_frame; [apply touches_clear_body|]. congruence.
Qed.

Lemma clear_frame_witness :
  let self := healthy (<["other:key" := ∅]> scenario_db) "btagent:" in
  keys_match (key_pattern (prefix self)) "other:key" = false /\
  (store_db (snd (clear self)) ≫= (fun d => d !! "other:key")) =
  (store_db self ≫= (fun d => d !! "other:key")).
Proof. split; [vm_compute; reflexivity|]. apply clear_frame. vm_compute. reflexivity. Defined.

(** X4: [get_vector], [search], [get_all_vectors] and [count_vectors] never
    change the stored data, whatever the backend does. *)
Theorem read_methods_preserve_db loads id q k t limit (self : store) :
  store_db (snd (get_vector loads id self)) = store_db self /\
  store_db (snd (search loads q k t self)) = store_db self /\
  store_db (snd (get_all_vectors loads limit self)) = store_db self /\
  store_db (snd (count_vectors self)) = store_db self.
Proof.
  split; [|split; [|split]]; apply method_read_only.
  - unfold get_vector_body. repeat touches_step.
  - unfold search_body. repeat (first [apply touches_search_loop | touches_step]).
    all: try (destruct a; repeat (first [apply touches_search_loop | touches_step])).
  - unfold get_all_vectors_body. repeat (first [apply touches_get_all_loop | touches_step]).
    all: try (destruct a; repeat (first [apply touches_get_all_loop | touches_step])).
  - unfold count_vectors_body. repeat touches_step.
Qed.

(** X5: the three writes of [add_vector] are not atomic: when the write of
    the metadata field fails, [add_vector] returns False but the new vector
    is already stored, next to the old metadata and timestamp. *)
Theorem add_vector_partial_write dumps now id v m d pfx :
  let self := mkStore (Some (mkBackend d [false; true])) pfx in
  let key := key_of pfx id in
  fst (add_vector dumps now id v m self) = Ok false /\
  stored_field (snd (add_vector dumps now id v m self)) key "vector" = Some (dumps v) /\
  stored_field (snd (add_vector dumps now id v m self)) key "metadata" = stored_field self key "metadata" /\
  stored_field (snd (add_vector dumps now id v m self)) key "created_at" = stored_field self key "created_at".
Proof.
  cbn zeta. unfold add_vector, method, stored_field; cbn [redis_client prefix].
  cbn. rewrite lookup_insert_eq. cbn.
  split; [reflexivity|]. split; [apply lookup_insert_eq|].
  destruct (d !! key_of pfx id) as [h|]; cbn; split;
    rewrite lookup_insert_ne by discriminate; rewrite ?lookup_empty; reflexivity.
Qed.

(** X6: on an available backend and under a prefix without glob
    characters, [add_vector] with an id that is not
    stored yet raises [count_vectors()] by one; with a stored id (an
    upsert) the count stays the same. *)
Theorem add_vector_count dumps now id v m d pfx n :
  no_glob_chars pfx = true ->
  fst (count_vectors (healthy d pfx)) = Ok n ->
  fst (count_vectors (snd (add_vector dumps now id v m (healthy d pfx)))) =
  Ok (match d !! key_of pfx id with None => n + 1 | Some _ => n end)%Z.
Proof.
  rewrite add_vector_healthy. cbn [snd]. rewrite !count_vectors_healthy. cbn [fst].
  intros Hp H; injection H as <-.
  destruct (d !! key_of pfx id) as [h|] eqn:E.
  - erewrite matching_keys_insert_present by exact E. reflexivity.
  - rewrite matching_keys_insert_new by (exact E || apply key_matches_pattern, Hp). f_equal. lia.
Qed.

Lemma add_vector_count_witness :
  no_glob_chars "btagent:" = true /\
  fst (count_vectors (healthy scenario_db "btagent:")) = Ok 3%Z /\
  fst (count_vectors (snd (add_vector demo_dumps "t" "d" (JArr []) None (healthy scenario_db "btagent:")))) =
  Ok (match scenario_db !! key_of "btagent:" "d" with None => 3 + 1 | Some _ => 3 end)%Z.
Proof.
  split; [reflexivity|]. split; [vm_compute; reflexivity|].
  apply add_vector_count; [reflexivity | vm_compute; reflexivity].
Defined.

(** X7: on an available backend and under a prefix without glob
    characters, [delete_vector] of a stored id lowers
    [count_vectors()] by one; for an id that is not stored the count stays
    the same. *)
Theorem delete_vector_count id d pfx n :
  no_glob_chars pfx = true ->
  fst (count_vectors (healthy d pfx)) = Ok n ->
  fst (count_vectors (snd (delete_vector id (healthy d pfx)))) =
  Ok (match d !! key_of pfx id with None => n | Some _ => n - 1 end)%Z.
Proof.
  rewrite delete_vector_healthy. cbn [snd]. rewrite !count_vectors_healthy. cbn [fst].
  intros Hp H; injection H as <-.
  destruct (d !! key_of pfx id) as [h|] eqn:E.
  - rewrite (matching_keys_delete_present (key_pattern pfx) d (key_of pfx id) h E
               (key_matches_pattern pfx id Hp)).
    f_equal. lia.
  - rewrite delete_id by exact E. reflexivity.
Qed.

Lemma delete_vector_count_witness :
  no_glob_chars "btagent:" = true /\
  fst (count_vectors (healthy scenario_db "btagent:")) = Ok 3%Z /\
  fst (count_vectors (snd (delete_vector "a" (healthy scenario_db "btagent:")))) =
  Ok (match scenario_db !! key_of "btagent:" "a" with None => 3 | Some _ => 3 - 1 end)%Z.
Proof.
  split; [reflexivity|]. split; [vm_compute; reflexivity|].
  apply delete_vector_count; [reflexivity | vm_compute; reflexivity].
Defined.

(** X8: on an available backend, [get_vector] of a stored hash whose
    vector field is missing or empty returns None, whatever the metadata
    field holds; a vector that parses next to a missing or empty metadata
    field comes back with the metadata [{}]. *)
Theorem get_vector_missing_fields loads id d pfx h :
  d !! key_of pfx id = Some h ->
  (truthy (h !! "vector") = false -> fst (get_vector loads id (healthy d pfx)) = Ok None) /\
  (forall sv v, h !! "vector" = Some sv -> sv <> EmptyString -> loads sv = Some v ->
     truthy (h !! "metadata") = false ->
     fst (get_vector loads id (healthy d pfx)) = Ok (Some (mkRecord id v (JObj [])))).
Proof.
  intros Hk. split.
  - intros Hv. unfold get_vector, method, healthy; cbn [redis_client prefix].
    unfold catch, get_vector_body, bind. rewrite !hget_ok, Hk. cbn [mbind option_bind].
    rewrite Hv. reflexivity.
  - intros sv v Hv Hne Hl Hm. erewrite get_vector_found; [reflexivity|exact Hk|exact Hv|exact Hne|exact Hl|].
    unfold parse_metadata. rewrite Hm. reflexivity.
Qed.

Lemma get_vector_missing_fields_witness :
  let h := {[ "metadata" := "{}" ]} : gmap string string in
  let d := {[ key_of "p:" "a" := h ]} in
  d !! key_of "p:" "a" = Some h /\ truthy (h !! "vector") = false /\
  fst (get_vector demo_loads "a" (healthy d "p:")) = Ok None.
Proof.
  cbn zeta. split; [apply lookup_singleton_eq|]. split; [reflexivity|].
  apply (get_vector_missing_fields demo_loads "a" _ "p:" {[ "metadata" := "{}" ]});
    [apply lookup_singleton_eq | reflexivity].
Defined.

(** X9: on an available backend, [get_vector] of a stored hash whose
    non-empty vector field, or whose non-empty metadata field, is not valid
    JSON returns None instead of raising. *)
Theorem get_vector_unparseable loads id d pfx h sv :
  d !! key_of pfx id = Some h -> h !! "vector" = Some sv -> sv <> EmptyString ->
  (loads sv = None \/ parse_metadata loads (h !! "metadata") = None) ->
  fst (get_vector loads id (healthy d pfx)) = Ok None.
Proof.
  intros Hk Hv Hne Hbad. unfold get_vector, method, healthy; cbn [redis_client prefix].
  unfold catch, get_vector_body, bind. rewrite !hget_ok, Hk. cbn [mbind option_bind].
  rewrite Hv. destruct sv as [|c s]; [congruence|]. cbn [truthy negb].
  unfold json_loads at 1. destruct (loads (String c s)) as [v|] eqn:El; [|reflexivity].
  destruct Hbad as [Hbad|Hbad]; [congruence|].
  unfold load_metadata, parse_metadata in *. unfold ret at 1.
  destruct (truthy (h !! "metadata")); [|discriminate].
  unfold json_loads. destruct (h !! "metadata") as [sm|]; [rewrite Hbad|]; reflexivity.
Qed.

Lemma get_vector_unparseable_witness :
  let h := {[ "vector" := "oops" ]} : gmap string string in
  let d := {[ key_of "p:" "a" := h ]} in
  d !! key_of "p:" "a" = Some h /\ h !! "vector" = Some "oops" /\ "oops" <> EmptyString /\
  (demo_loads "oops" = None \/ parse_metadata demo_loads (h !! "metadata") = None) /\
  fst (get_vector demo_loads "a" (healthy d "p:")) = Ok None.
Proof.
  cbn zeta. split; [apply lookup_singleton_eq|]. split; [apply lookup_singleton_eq|].
  split; [discriminate|]. split; [left; reflexivity|].
  apply (get_vector_unparseable demo_loads "a" _ "p:" {[ "vector" := "oops" ]} "oops");
    [apply lookup_singleton_eq | apply lookup_singleton_eq | discriminate | left; reflexivity].
Defined.

(** ** Malformed entries and the order and size of results *)

Lemma json_loads_state loads o b r b' : json_loads loads o b = (r, b') -> b' = b.
Proof.
  unfold json_loads, ret, raise. destruct o as [s|]; [destruct (loads s)|];
    intros H; injection H as _ <-; reflexivity.
Qed.

Lemma load_metadata_state loads o b r b' : load_metadata loads o b = (r, b') -> b' = b.
Proof.
  unfold load_metadata. destruct (truthy o); [apply json_loads_state|].
  unfold ret. intros H; injection H as _ <-; reflexivity.
Qed.

Lemma lift_state {A} (x : result A) b r b' : lift x b = (r, b') -> b' = b.
Proof. unfold lift. intros H; injection H as _ <-; reflexivity. Qed.

(** Unfold a [bind] whose first step only reads, in [H : bind c k b = (r, b')]. *)
Ltac pure_bind H L :=
  match type of H with
  | bind ?c ?k ?b = _ =>
      unfold bind at 1 in H;
      let r := fresh "r" in let b1 := fresh "b" in let E := fresh "E" in
      destruct (c b) as [[r|r] b1] eqn:E;
      [apply L in E; subst b1 | injection H as <- _; eauto]
  end.

Ltac hget_bind H :=
  match type of H with
  | bind ?c ?k ?b = _ =>
      unfold bind at 1 in H;
      let r := fresh "r" in let b1 := fresh "b" in let E := fresh "E" in
      destruct (c b) as [[r|r] b1] eqn:E; rewrite hget_ok in E;
      [injection E as <- <- | discriminate E]
  end.

Ltac skip_test H :=
  match type of H with
  | context [if negb ?c then _ else _] => destruct (negb c)
  end.

(** A key whose non-empty vector field is not valid JSON makes the loop of
    [search] raise. *)
Lemma search_loop_malformed loads qv t d k h sv ks r b' :
  d !! k = Some h -> h !! "vector" = Some sv -> sv <> EmptyString -> loads sv = None ->
  In k ks -> search_loop loads qv t ks (mkBackend d []) = (r, b') -> exists e, r = Raise e.
Proof.
  intros Hk Hv Hne Hl Hin. revert r b'.
  induction ks as [|key ks IH]; [destruct Hin|]. intros r b' H. cbn [search_loop] in H.
  hget_bind H. hget_bind H.
  destruct (decide (key = k)) as [->|Hneq].
  - rewrite Hk in H. cbn [mbind option_bind] in H. rewrite Hv in H.
    destruct sv as [|c s]; [congruence|]. cbn [truthy negb] in H.
    unfold bind at 1, json_loads at 1 in H. rewrite Hl in H. cbn in H.
    injection H as <- _. eauto.
  - destruct Hin as [Heq|Hin]; [congruence|]. specialize (IH Hin).
    skip_test H; [eapply IH; exact H|].
    pure_bind H json_loads_state. pure_bind H load_metadata_state.
    pure_bind H (@lift_state). pure_bind H (@lift_state).
    match type of H with context [if fleb ?a ?b then _ else _] => destruct (fleb a b) end;
      [|eapply IH; exact H].
    unfold bind at 1 in H.
    destruct (search_loop loads qv t ks (mkBackend d [])) as [[l|e] b5] eqn:E5.
    + destruct (IH _ _ eq_refl) as [e He]; discriminate.
    + injection H as <- _. eauto.
Qed.

(** The same for the loop of [get_all_vectors]. *)
Lemma get_all_loop_malformed loads d k h sv ks r b' :
  d !! k = Some h -> h !! "vector" = Some sv -> sv <> EmptyString -> loads sv = None ->
  In k ks -> get_all_loop loads ks (mkBackend d []) = (r, b') -> exists e, r = Raise e.
Proof.
  intros Hk Hv Hne Hl Hin. revert r b'.
  induction ks as [|key ks IH]; [destruct Hin|]. intros r b' H. cbn [get_all_loop] in H.
  hget_bind H. hget_bind H.
  destruct (decide (key = k)) as [->|Hneq].
  - rewrite Hk in H. cbn [mbind option_bind] in H. rewrite Hv in H.
    destruct sv as [|c s]; [congruence|]. cbn [truthy negb] in H.
    unfold bind at 1, json_loads at 1 in H. rewrite Hl in H. cbn in H.
    injection H as <- _. eauto.
  - destruct Hin as [Heq|Hin]; [congruence|]. specialize (IH Hin).
    skip_test H; [eapply IH; exact H|].
    pure_bind H json_loads_state. pure_bind H load_metadata_state.
    unfold bind at 1 in H.
    destruct (get_all_loop loads ks (mkBackend d [])) as [[l|e] b5] eqn:E5.
    + destruct (IH _ _ eq_refl) as [e He]; discriminate.
    + injection H as <- _. eauto.
Qed.

(** X10: on an available backend, one key under the prefix whose non-empty
    vector field is not valid JSON makes [search] return the empty list,
    for every query, [k] and threshold: the exception of that key discards
    the hits of all the others. *)
Theorem search_malformed_entry loads q k t d pfx key h sv :
  In key (matching_keys (key_pattern pfx) d) ->
  d !! key = Some h -> h !! "vector" = Some sv -> sv <> EmptyString -> loads sv = None ->
  fst (search loads q k t (healthy d pfx)) = Ok [].
Proof.
  intros Hin Hk Hv Hne Hl. unfold search, method, healthy; cbn [redis_client prefix].
  unfold catch, search_body. unfold bind at 1. rewrite keys_ok.
  destruct (matching_keys (key_pattern pfx) d) as [|k0 ks] eqn:Ek; [destruct Hin|].
  unfold bind at 1.
  destruct (search_loop loads (normalize q) t (k0 :: ks) (mkBackend d [])) as [r b'] eqn:E.
  destruct (search_loop_malformed loads (normalize q) t d key h sv (k0 :: ks) r b'
              Hk Hv Hne Hl Hin E) as [e ->].
  reflexivity.
Qed.

Lemma search_malformed_entry_witness :
  let d := <["btagent:vector:z" := {[ "vector" := "oops" ]}]> scenario_db in
  In "btagent:vector:z" (matching_keys (key_pattern "btagent:") d) /\
  fst (search scenario_loads [f1; f0; f0; f0] 5 f0 (healthy d "btagent:")) = Ok [].
Proof.
  cbn zeta. split; [vm_compute; tauto|].
  apply (search_malformed_entry _ _ _ _ _ _ "btagent:vector:z" {[ "vector" := "oops" ]} "oops").
  - vm_compute. tauto.
  - apply lookup_insert_eq.
  - apply lookup_singleton_eq.
  - discriminate.
  - reflexivity.
Defined.

(** X11: on an available backend, a key among the first [limit] keys
    under the prefix whose non-empty vector field is not valid JSON makes
    [get_all_vectors(limit)] return the empty list. *)
Theorem get_all_vectors_malformed_entry loads limit d pfx key h sv :
  In key (py_slice (matching_keys (key_pattern pfx) d) limit) ->
  d !! key = Some h -> h !! "vector" = Some sv -> sv <> EmptyString -> loads sv = None ->
  fst (get_all_vectors loads limit (healthy d pfx)) = Ok [].
Proof.
  intros Hin Hk Hv Hne Hl. unfold get_all_vectors, method, healthy; cbn [redis_client prefix].
  unfold catch, get_all_vectors_body. unfold bind at 1. rewrite keys_ok.
  destruct (matching_keys (key_pattern pfx) d) as [|k0 ks] eqn:Ek.
  - unfold py_slice in Hin. destruct (Z.leb 0 limit); rewrite firstn_nil in Hin; destruct Hin.
  - destruct (get_all_loop loads (py_slice (k0 :: ks) limit) (mkBackend d [])) as [r b'] eqn:E.
    destruct (get_all_loop_malformed loads d key h sv _ r b' Hk Hv Hne Hl Hin E) as [e ->].
    reflexivity.
Qed.

Lemma get_all_vectors_malformed_entry_witness :
  let d := <["btagent:vector:z" := {[ "vector" := "oops" ]}]> scenario_db in
  In "btagent:vector:z" (py_slice (matching_keys (key_pattern "btagent:") d) 10) /\
  fst (get_all_vectors scenario_loads 10 (healthy d "btagent:")) = Ok [].
Proof.
  cbn zeta. split; [vm_compute; tauto|].
  apply (get_all_vectors_malformed_entry _ _ _ _ "btagent:vector:z" {[ "vector" := "oops" ]} "oops").
  - vm_compute. tauto.
  - apply lookup_insert_eq.
  - apply lookup_singleton_eq.
  - discriminate.
  - reflexivity.
Defined.

(** [s < t] excludes [t < s]. *)
Lemma fltb_asym (s t : float) : fltb s t = true -> fltb t s = false.
Proof.
  unfold fltb, SFltb. rewrite (SFcompare_swap s t).
  destruct (SFcompare s t) as [[]|]; cbn; congruence.
Qed.

Lemma Sorted_insert_desc h l : Sorted desc_ok l -> Sorted desc_ok (insert_desc h l).
Proof.
  induction l as [|y l IH]; intros Hs; cbn.
  - repeat constructor.
  - destruct (fltb (hit_similarity y) (hit_similarity h)) eqn:E.
    + constructor; [exact Hs|]. constructor. unfold desc_ok. apply fltb_asym; exact E.
    + apply Sorted_inv in Hs as [Hs Hy]. constructor; [apply IH, Hs|].
      destruct l as [|z l']; cbn; [constructor; exact E|].
      destruct (fltb (hit_similarity z) (hit_similarity h)); constructor; [exact E|].
      inversion Hy; assumption.
Qed.

Lemma Sorted_sort_desc l : Sorted desc_ok (sort_desc l).
Proof.
  unfold sort_desc. assert (Hacc : Sorted desc_ok []) by constructor.
  revert Hacc. generalize (@nil hit) as acc.
  induction l as [|h l IH]; intros acc Hacc; cbn; [exact Hacc|].
  apply IH, Sorted_insert_desc, Hacc.
Qed.

Lemma Sorted_firstn {A} (R : A -> A -> Prop) n l : Sorted R l -> Sorted R (firstn n l).
Proof.
  revert n. induction l as [|a l IH]; intros [|n] Hs; cbn; [constructor|constructor|constructor|].
  apply Sorted_inv in Hs as [Hs Ha]. constructor; [apply IH, Hs|].
  destruct l as [|b l'], n as [|n]; cbn; constructor. inversion Ha; assumption.
Qed.

Lemma Sorted_py_slice {A} (R : A -> A -> Prop) l k : Sorted R l -> Sorted R (py_slice l k).
Proof. unfold py_slice. destruct (Z.leb 0 k); apply Sorted_firstn. Qed.

Lemma length_insert_desc h l : length (insert_desc h l) = S (length l).
Proof.
  induction l as [|y l IH]; cbn; [reflexivity|].
  destruct (fltb (hit_similarity y) (hit_similarity h)); cbn; [reflexivity|]. rewrite IH; reflexivity.
Qed.

Lemma length_sort_desc l : length (sort_desc l) = length l.
Proof.
  unfold sort_desc. enough (forall acc, length (fold_left (fun acc h => insert_desc h acc) l acc)
                                       = length l + length acc) as H
    by (rewrite H; cbn; lia).
  induction l as [|h l IH]; intros acc; cbn; [reflexivity|].
  rewrite IH, length_insert_desc. lia.
Qed.

Lemma search_loop_length loads qv t ks b l b' :
  search_loop loads qv t ks b = (Ok l, b') -> length l <= length ks.
Proof.
  revert b l b'. induction ks as [|key ks IH]; intros b l b' H; cbn in H.
  - injection H as <- _. reflexivity.
  - split_bind H. split_bind H.
    destruct (negb (truthy r)); [apply IH in H; cbn; lia|].
    split_bind H. split_bind H. split_bind H. split_bind H.
    destruct (fleb t r4); [|apply IH in H; cbn; lia].
    split_bind H. injection H as <- _. apply IH in E5. cbn. lia.
Qed.

Lemma length_py_slice_mono {A B} (l : list A) (l' : list B) k :
  length l <= length l' -> length (py_slice l k) <= length (py_slice l' k).
Proof. intros H. unfold py_slice. destruct (Z.leb 0 k); rewrite !length_firstn; lia. Qed.

(** X12: the hits returned by [search] are in decreasing order of
    similarity: no hit is less similar than the hit after it. *)
Theorem search_sorted loads q k t (self : store) :
  match fst (search loads q k t self) with
  | Ok l => Sorted desc_ok l
  | Raise _ => True
  end.
Proof.
  destruct (search loads q k t self) as [[l|e] s'] eqn:E; cbn; [|exact I].
  apply method_result in E as [-> | (b & b' & _ & Hb)]; [constructor|].
  unfold search_body in Hb. split_bind Hb.
  destruct r as [|k0 ks]; [injection Hb as <- _; constructor|].
  split_bind Hb. injection Hb as <- _.
  apply Sorted_py_slice, Sorted_sort_desc.
Qed.

(** X13: on an available backend, [search(q, k)] returns at most as many
    hits as [keys[:k]] has elements, for the keys under the prefix: at most
    [k] hits for [k >= 0], and for [k < 0] at most the number of keys less
    [-k]. *)
Theorem search_length loads q k t d pfx :
  match fst (search loads q k t (healthy d pfx)) with
  | Ok l => length l <= length (py_slice (matching_keys (key_pattern pfx) d) k)
  | Raise _ => True
  end.
Proof.
  destruct (search loads q k t (healthy d pfx)) as [[l|e] s'] eqn:E; cbn; [|exact I].
  apply method_result in E as [-> | (b & b' & Hc & Hb)]; [cbn; lia|].
  cbn in Hc. injection Hc as <-. cbn [prefix healthy] in Hb.
  unfold search_body in Hb. unfold bind at 1 in Hb. rewrite keys_ok in Hb.
  destruct (matching_keys (key_pattern pfx) d) as [|k0 ks] eqn:Ek;
    [injection Hb as <- _; cbn; lia|].
  split_bind Hb. injection Hb as <- _.
  apply length_py_slice_mono. rewrite length_sort_desc.
  eapply search_loop_length; exact E.
Qed.

(** X14: on an available backend, [get_all_vectors(limit)] returns at
    most as many records as [keys[:limit]] has elements, for the keys under
    the prefix. *)
Theorem get_all_vectors_length loads limit d pfx :
  match fst (get_all_vectors loads limit (healthy d pfx)) with
  | Ok l => length l <= length (py_slice (matching_keys (key_pattern pfx) d) limit)
  | Raise _ => True
  end.
Proof.
  destruct (get_all_vectors loads limit (healthy d pfx)) as [[l|e] s'] eqn:E; cbn; [|exact I].
  apply method_result in E as [-> | (b & b' & Hc & Hb)]; [cbn; lia|].
  cbn in Hc. injection Hc as <-. cbn [prefix healthy] in Hb.
  unfold get_all_vectors_body in Hb. unfold bind at 1 in Hb. rewrite keys_ok in Hb.
  destruct (matching_keys (key_pattern pfx) d) as [|k0 ks] eqn:Ek;
    [injection Hb as <- _; cbn; lia|].
  eapply get_all_loop_length; exact Hb.
Qed.

(** ** Writing over an existing hash, and reading back a fresh prefix *)

(** X15: on an available backend, [add_vector] over a stored hash keeps
    every field other than [vector], [metadata] and [created_at]: HSET
    writes single fields and never replaces the whole hash. *)
Theorem add_vector_keeps_other_fields dumps now id v m d pfx f :
  f <> "vector" -> f <> "metadata" -> f <> "created_at" ->
  stored_field (snd (add_vector dumps now id v m (healthy d pfx))) (key_of pfx id) f =
  stored_field (healthy d pfx) (key_of pfx id) f.
Proof.
  intros H1 H2 H3. rewrite add_vector_healthy; cbn [snd].
  unfold stored_field, healthy, added_hash; cbn [redis_client db].
  rewrite lookup_insert_eq. cbn [mbind option_bind].
  rewrite !lookup_insert_ne by congruence.
  destruct (d !! key_of pfx id) as [h|]; cbn; [reflexivity|]. apply lookup_empty.
Qed.

Lemma add_vector_keeps_other_fields_witness :
  let d := {[ key_of "p:" "a" := {[ "source" := "feed" ]} ]} in
  "source" <> "vector" /\ "source" <> "metadata" /\ "source" <> "created_at" /\
  stored_field (snd (add_vector demo_dumps "t" "a" (JArr []) None (healthy d "p:"))) (key_of "p:" "a") "source" =
  stored_field (healthy d "p:") (key_of "p:" "a") "source".
Proof.
  cbn zeta. split; [discriminate|]. split; [discriminate|]. split; [discriminate|].
  apply add_vector_keeps_other_fields; discriminate.
Defined.

Lemma filter_perm {A} (f : A -> bool) (l l' : list A) :
  Permutation l l' -> Permutation (List.filter f l) (List.filter f l').
Proof.
  induction 1 as [| x l l' _ IH | x y l | l l' l'' _ IH1 _ IH2]; cbn.
  - constructor.
  - destruct (f x); [constructor|]; exact IH.
  - destruct (f x), (f y); first [apply perm_swap | apply perm_skip; reflexivity | reflexivity].
  - etransitivity; eassumption.
Qed.

(** The only matching key after writing a matching key next to none. *)
Lemma matching_keys_only pat (d : gmap string (gmap string string)) k h :
  matching_keys pat d = [] -> keys_match pat k = true ->
  d !! k = None /\ matching_keys pat (<[k := h]> d) = [k].
Proof.
  intros Hd Hk.
  assert (Hn : d !! k = None).
  { destruct (d !! k) as [h'|] eqn:E; [exfalso|reflexivity].
    assert (Hin : In k (matching_keys pat d)).
    { unfold matching_keys. apply filter_In. split; [apply in_keys_lookup; eauto | exact Hk]. }
    rewrite Hd in Hin. destruct Hin. }
  split; [exact Hn|].
  assert (Hp : Permutation (matching_keys pat (<[k := h]> d)) [k]).
  { unfold matching_keys.
    transitivity (List.filter (keys_match pat) (k :: map fst (map_to_list d))).
    - apply filter_perm. rewrite map_to_list_insert by exact Hn. reflexivity.
    - cbn. rewrite Hk. unfold matching_keys in Hd. rewrite Hd. reflexivity. }
  apply Permutation_sym, Permutation_length_1_inv in Hp. exact Hp.
Qed.

Lemma add_fresh_get_all dumps loads now id v m d pfx limit :
  no_glob_chars pfx = true -> matching_keys (key_pattern pfx) d = [] ->
  loads (dumps v) = Some v -> loads (dumps m) = Some m ->
  dumps v <> EmptyString -> dumps m <> EmptyString -> (1 <= limit)%Z ->
  fst (get_all_vectors loads limit (snd (add_vector dumps now id v (Some m) (healthy d pfx))))
  = Ok [mkRecord (last_part id) v m].
Proof.
  intros Hp Hd Hv Hm Hnv Hnm Hl.
  rewrite add_vector_healthy; cbn [snd].
  destruct (matching_keys_only (key_pattern pfx) d (key_of pfx id)
              (added_hash dumps now v (Some m) ∅) Hd (key_matches_pattern pfx id Hp)) as [Hn Hmk].
  rewrite Hn. cbn [default].
  unfold get_all_vectors, method, healthy; cbn [redis_client prefix].
  unfold catch, get_all_vectors_body. unfold bind at 1. rewrite keys_ok, Hmk.
  assert (Hs : py_slice [key_of pfx id] limit = [key_of pfx id]).
  { unfold py_slice. destruct (Z.leb_spec 0 limit) as [_|]; [|lia].
    replace (Z.to_nat limit) with (S (Z.to_nat limit - 1)) by lia. cbn. rewrite firstn_nil. reflexivity. }
  rewrite Hs. cbn [get_all_loop].
  unfold bind at 1. rewrite hget_ok. unfold bind at 1. rewrite hget_ok.
  rewrite lookup_insert_eq. cbn [mbind option_bind].
  unfold added_hash.
  rewrite lookup_insert_ne by discriminate. rewrite lookup_insert_ne by discriminate.
  rewrite lookup_insert_eq.
  rewrite lookup_insert_ne by discriminate. rewrite lookup_insert_eq.
  assert (Htv : truthy (Some (dumps v)) = true) by (destruct (dumps v); [congruence|reflexivity]).
  assert (Htm : truthy (Some (dumps m)) = true) by (destruct (dumps m); [congruence|reflexivity]).
  rewrite Htv. cbn [negb].
  unfold bind at 1, json_loads at 1. rewrite Hv.
  unfold bind at 1, load_metadata. rewrite Htm. unfold json_loads. rewrite Hm.
  cbn. rewrite last_part_key. reflexivity.
Qed.
(** X16: on an available backend whose prefix has no glob character
    ([*], [?], [[], [\]) and holds no key yet,
    [add_vector(id, v, m)] followed by [get_all_vectors(limit)] with
    [limit >= 1] returns exactly one record, with vector [v], metadata [m]
    and as id the part of [id] after its last colon. *)
Theorem add_then_get_all dumps loads now id v m d pfx limit :
  no_glob_chars pfx = true -> matching_keys (key_pattern pfx) d = [] ->
  loads (dumps v) = Some v -> loads (dumps m) = Some m ->
  dumps v <> EmptyString -> dumps m <> EmptyString -> (1 <= limit)%Z ->
  fst (get_all_vectors loads limit (snd (add_vector dumps now id v (Some m) (healthy d pfx))))
  = Ok [mkRecord (last_part id) v m].
Proof. apply add_fresh_get_all. Qed.

Lemma add_then_get_all_witness :
  no_glob_chars "p:" = true /\ matching_keys (key_pattern "p:") ∅ = [] /\
  fst (get_all_vectors demo_loads 5 (snd (add_vector demo_dumps "t" "a" (JArr [JNum f1]) (Some (JObj [])) (healthy ∅ "p:"))))
  = Ok [mkRecord (last_part "a") (JArr [JNum f1]) (JObj [])].
Proof.
  split; [reflexivity|]. split; [reflexivity|].
  apply add_then_get_all; try reflexivity; try discriminate; lia.
Defined.

(** ** Reported ids *)




